(** * The wxPython sample of velopack: a model of [samples/PythonWXPython/main.py]

    The file is one window with three buttons, a read-only log text control,
    a timer and a module-level log handler.  The update SDK ([velopack]) and
    the GUI toolkit ([wx]) are outside the program: what the SDK answers is
    supplied to every call as data, and the toolkit is modelled by the part
    of its state that the program reads and writes (labels, enabled flags,
    the text of the log control, the queue of [wx.CallAfter] calls). *)

From stdpp Require Import base list strings pretty.
From Stdlib Require Import ZArith Ascii Lia.

Open Scope string_scope.
Open Scope Z_scope.

(** ** The [logging] module, as far as the program uses it *)

Module Logging.

Inductive Level := INFO | WARNING | ERROR.

Definition levelno (l : Level) : Z :=
  match l with INFO => 20 | WARNING => 30 | ERROR => 40 end.

Definition levelname (l : Level) : string :=
  match l with INFO => "INFO" | WARNING => "WARNING" | ERROR => "ERROR" end.

Record LogRecord := mkLogRecord { rec_level : Level; rec_message : string }.

(** A %-style format string, cut at its two fields. *)
Inductive FmtPiece := Lit (s : string) | Field_levelname | Field_message.

Definition Formatter := list FmtPiece.

Definition render_piece (r : LogRecord) (p : FmtPiece) : string :=
  match p with
  | Lit s => s
  | Field_levelname => levelname (rec_level r)
  | Field_message => rec_message r
  end.

(** Python's [''.join(ss)]. *)
Definition join (ss : list string) : string := foldr String.append EmptyString ss.

Definition render (f : Formatter) (r : LogRecord) : string :=
  join (map (render_piece r) f).

(** [logging.Formatter()] without a format string: ['%(message)s']. *)
Definition default_formatter : Formatter := [Field_message].

End Logging.
Import Logging.

(** ** [class BufferedLogHandler(logging.Handler)] *)

Record BufferedLogHandler := mkHandler {
  formatter : option Formatter;
  level : Z;
  buffer : list string
}.

(** [BufferedLogHandler()]: no formatter, level NOTSET, an empty buffer. *)
Definition BufferedLogHandler_init : BufferedLogHandler :=
  {| formatter := None; level := 0; buffer := [] |}.

(** [Handler.format]: the handler's formatter, or the module default. *)
Definition format (h : BufferedLogHandler) (record : LogRecord) : string :=
  match formatter h with
  | Some f => render f record
  | None => render default_formatter record
  end.

Definition set_buffer (b : list string) (h : BufferedLogHandler) : BufferedLogHandler :=
  {| formatter := formatter h; level := level h; buffer := b |}.

(** [emit]: [msg = self.format(record); self.buffer.append(msg)]. *)
Definition emit (h : BufferedLogHandler) (record : LogRecord) : BufferedLogHandler :=
  let msg := format h record in
  set_buffer (buffer h ++ [msg]) h.

(** [get_messages]: [messages = self.buffer[:]] is a copy, so clearing the
    buffer afterwards does not touch what is returned. *)
Definition get_messages (h : BufferedLogHandler) : list string * BufferedLogHandler :=
  let messages := buffer h in
  (messages, set_buffer [] h).

(** ** The root logger and the module-level [log_handler] *)

Inductive HandlerRef := log_handler_ref | foreign_handler (n : nat).

Global Instance HandlerRef_eq_dec : EqDecision HandlerRef.
Proof. solve_decision. Defined.

Record LoggingState := mkLogging {
  root_level : Z;
  root_handlers : list HandlerRef;
  log_handler : BufferedLogHandler
}.

Definition set_log_handler (h : BufferedLogHandler) (L : LoggingState) : LoggingState :=
  {| root_level := root_level L; root_handlers := root_handlers L; log_handler := h |}.

(** The interpreter after the imports and [log_handler = BufferedLogHandler()]:
    the root logger is at WARNING and has no handler yet. *)
Definition logging_at_import : LoggingState :=
  {| root_level := levelno WARNING; root_handlers := [];
     log_handler := BufferedLogHandler_init |}.

Definition removeHandler (h : HandlerRef) (hs : list HandlerRef) : list HandlerRef :=
  filter (λ h', h' ≠ h) hs.

Definition addHandler (h : HandlerRef) (hs : list HandlerRef) : list HandlerRef :=
  if decide (h ∈ hs) then hs else hs ++ [h].

Definition log_format : Formatter :=
  [Lit "- "; Field_levelname; Lit " - "; Field_message].

Definition setup_logging (L : LoggingState) : LoggingState :=
  let hs := fold_left (λ hs h, removeHandler h hs) (root_handlers L) (root_handlers L) in
  let h := {| formatter := Some log_format; level := levelno INFO;
              buffer := buffer (log_handler L) |} in
  {| root_level := levelno INFO;
     root_handlers := addHandler log_handler_ref hs;
     log_handler := h |}.

(** [Logger.callHandlers]: every attached handler whose level admits the
    record handles it.  Handlers other than [log_handler] write elsewhere. *)
Definition callHandlers (r : LogRecord) (L : LoggingState) : LoggingState :=
  fold_left
    (λ L h,
       match h with
       | log_handler_ref =>
           if level (log_handler L) <=? levelno (rec_level r)
           then set_log_handler (emit (log_handler L) r) L
           else L
       | foreign_handler _ => L
       end)
    (root_handlers L) L.

(** [logging.info], [logging.warning], [logging.error] on the root logger. *)
Definition log (lvl : Level) (msg : string) (L : LoggingState) : LoggingState :=
  if root_level L <=? levelno lvl
  then callHandlers (mkLogRecord lvl msg) L
  else L.

(** ** What the program sees of the SDK *)

(** The SDK's objects are opaque: a manager is a handle, an update
    description is what [str] prints for it, an exception is its [str]. An
    update description is an ordinary object, so it is truthy; the only falsy
    value [check_for_updates] returns is [None].  Exceptions are instances of
    [Exception], the class the three [except] clauses name. *)
Record UpdateManager := mkUpdateManager { manager_handle : nat }.
Record UpdateInfo := mkUpdateInfo { info_str : string }.
Record Exception := mkException { exc_str : string }.

Inductive SdkCall :=
| App_run
| UpdateManager_new (url : string)
| check_for_updates (m : UpdateManager)
| download_updates (m : UpdateManager) (u : option UpdateInfo)
| apply_updates_and_restart (m : UpdateManager) (u : UpdateInfo).

Inductive ThreadId := UiThread | WorkerThread (tid : nat).

Inductive CheckResult :=
| check_raises (e : Exception)
| check_returns (u : option UpdateInfo).

Inductive CheckOutcome :=
| constructor_raises (e : Exception)
| constructed (m : UpdateManager) (r : CheckResult).

Inductive ApplyOutcome := apply_returns | apply_raises (e : Exception).

(** The answers the SDK would give to a handler that runs now. *)
Record Sdk := mkSdk { sdk_check : CheckOutcome; sdk_apply : ApplyOutcome }.

(** ** Widgets *)

Record Button := mkButton { label : string; enabled : bool }.

Inductive ButtonId := CheckBtn | DownloadBtn | ApplyBtn.

Global Instance ButtonId_eq_dec : EqDecision ButtonId.
Proof. solve_decision. Defined.

Inductive EventSource := EVT_BUTTON (b : ButtonId) | EVT_TIMER.

Global Instance EventSource_eq_dec : EqDecision EventSource.
Proof. solve_decision. Defined.

Inductive Callback := cb_on_check | cb_on_download | cb_on_apply | cb_on_timer.

Record MainFrame := mkFrame {
  update_manager : option UpdateManager;
  update_info : option UpdateInfo;
  check_btn : Button;
  download_btn : Button;
  apply_btn : Button;
  log_text : string;
  timer : option Z;
  bindings : list (EventSource * Callback)
}.

Definition button (b : ButtonId) (f : MainFrame) : Button :=
  match b with
  | CheckBtn => check_btn f
  | DownloadBtn => download_btn f
  | ApplyBtn => apply_btn f
  end.

Definition set_button (b : ButtonId) (v : Button) (f : MainFrame) : MainFrame :=
  {| update_manager := update_manager f; update_info := update_info f;
     check_btn := match b with CheckBtn => v | _ => check_btn f end;
     download_btn := match b with DownloadBtn => v | _ => download_btn f end;
     apply_btn := match b with ApplyBtn => v | _ => apply_btn f end;
     log_text := log_text f; timer := timer f; bindings := bindings f |}.

Definition set_update_manager (m : option UpdateManager) (f : MainFrame) : MainFrame :=
  {| update_manager := m; update_info := update_info f;
     check_btn := check_btn f; download_btn := download_btn f; apply_btn := apply_btn f;
     log_text := log_text f; timer := timer f; bindings := bindings f |}.

Definition set_update_info (u : option UpdateInfo) (f : MainFrame) : MainFrame :=
  {| update_manager := update_manager f; update_info := u;
     check_btn := check_btn f; download_btn := download_btn f; apply_btn := apply_btn f;
     log_text := log_text f; timer := timer f; bindings := bindings f |}.

Definition set_log_text (s : string) (f : MainFrame) : MainFrame :=
  {| update_manager := update_manager f; update_info := update_info f;
     check_btn := check_btn f; download_btn := download_btn f; apply_btn := apply_btn f;
     log_text := s; timer := timer f; bindings := bindings f |}.

Definition set_timer (t : option Z) (f : MainFrame) : MainFrame :=
  {| update_manager := update_manager f; update_info := update_info f;
     check_btn := check_btn f; download_btn := download_btn f; apply_btn := apply_btn f;
     log_text := log_text f; timer := t; bindings := bindings f |}.

Definition set_bindings (bs : list (EventSource * Callback)) (f : MainFrame) : MainFrame :=
  {| update_manager := update_manager f; update_info := update_info f;
     check_btn := check_btn f; download_btn := download_btn f; apply_btn := apply_btn f;
     log_text := log_text f; timer := timer f; bindings := bs |}.

(** ** Threads and the [wx.CallAfter] queue *)

(** Where a download thread stands in [download_thread]. *)
Inductive WorkerPc :=
| at_start
| label_saved (original_label : string)
| in_download (original_label : string)
| finished.

Record Thread := mkThread { daemon : bool; pc : WorkerPc }.

(** A call handed to [wx.CallAfter]: the callable and its argument. *)
Inductive UiCall :=
| call_SetLabel (b : ButtonId) (s : string)
| call_Enable (b : ButtonId)
| call_logging (lvl : Level) (msg : string).

(** ** The whole program state *)

Record World := mkWorld {
  logging : LoggingState;
  frame : MainFrame;
  sdk_calls : list (ThreadId * SdkCall);
  threads : list Thread;
  pending : list UiCall
}.

Definition Cmd := World → World.

Notation "w |> f" := (f w) (at level 45, left associativity, only parsing).

Definition upd_logging (g : LoggingState → LoggingState) : Cmd := λ w,
  {| logging := g (logging w); frame := frame w; sdk_calls := sdk_calls w;
     threads := threads w; pending := pending w |}.

Definition upd_frame (g : MainFrame → MainFrame) : Cmd := λ w,
  {| logging := logging w; frame := g (frame w); sdk_calls := sdk_calls w;
     threads := threads w; pending := pending w |}.

Definition set_threads (ts : list Thread) : Cmd := λ w,
  {| logging := logging w; frame := frame w; sdk_calls := sdk_calls w;
     threads := ts; pending := pending w |}.

Definition set_pending (q : list UiCall) : Cmd := λ w,
  {| logging := logging w; frame := frame w; sdk_calls := sdk_calls w;
     threads := threads w; pending := q |}.

(** Records that thread [t] has entered the SDK through [c]. *)
Definition sdk (t : ThreadId) (c : SdkCall) : Cmd := λ w,
  {| logging := logging w; frame := frame w; sdk_calls := sdk_calls w ++ [(t, c)];
     threads := threads w; pending := pending w |}.

(** Toolkit and library calls used by the handlers. *)
Definition Enable (b : ButtonId) : Cmd :=
  upd_frame (λ f, set_button b {| label := label (button b f); enabled := true |} f).

Definition Disable (b : ButtonId) : Cmd :=
  upd_frame (λ f, set_button b {| label := label (button b f); enabled := false |} f).

Definition SetLabel (b : ButtonId) (s : string) : Cmd :=
  upd_frame (λ f, set_button b {| label := s; enabled := enabled (button b f) |} f).

Definition GetLabel (b : ButtonId) (w : World) : string := label (button b (frame w)).

Definition AppendText (s : string) : Cmd :=
  upd_frame (λ f, set_log_text (log_text f ++ s) f).

Definition Bind (src : EventSource) (cb : Callback) : Cmd :=
  upd_frame (λ f, set_bindings (bindings f ++ [(src, cb)]) f).

Definition Timer_Start (ms : Z) : Cmd := upd_frame (set_timer (Some ms)).

Definition logging_info (msg : string) : Cmd := upd_logging (log INFO msg).
Definition logging_warning (msg : string) : Cmd := upd_logging (log WARNING msg).
Definition logging_error (msg : string) : Cmd := upd_logging (log ERROR msg).

Definition CallAfter (c : UiCall) : Cmd := λ w, set_pending (pending w ++ [c]) w.

(** [threading.Thread(target=download_thread, daemon=True)] then [start()]. *)
Definition Thread_start (d : bool) : Cmd := λ w,
  set_threads (threads w ++ [{| daemon := d; pc := at_start |}]) w.

Definition set_pc (tid : nat) (p : WorkerPc) : Cmd := λ w,
  set_threads (alter (λ t, {| daemon := daemon t; pc := p |}) tid (threads w)) w.

Definition newline : string := String "010"%char EmptyString.

(** ** [class MainFrame(wx.Frame)] *)

Section Program.

(** [from _build_config import update_url]: written at build time. *)
Variable update_url : string.

(** The fields as the first statements of [__init__] create them. *)
Definition widgets : MainFrame :=
  {| update_manager := None;
     update_info := None;
     check_btn := {| label := "Check"; enabled := true |};
     download_btn := {| label := "Download"; enabled := true |};
     apply_btn := {| label := "Apply"; enabled := true |};
     log_text := EmptyString;
     timer := None;
     bindings := [] |}.

Definition MainFrame__init__ : Cmd := λ w,
  w |> upd_frame (λ _, widgets)
    |> Disable DownloadBtn
    |> Disable ApplyBtn
    |> Bind (EVT_BUTTON CheckBtn) cb_on_check
    |> Bind (EVT_BUTTON DownloadBtn) cb_on_download
    |> Bind (EVT_BUTTON ApplyBtn) cb_on_apply
    |> Bind EVT_TIMER cb_on_timer
    |> Timer_Start 5
    |> logging_info "GUI initialized and ready".

Definition on_timer : Cmd := λ w,
  let '(messages, h) := get_messages (log_handler (logging w)) in
  let w := upd_logging (set_log_handler h) w in
  fold_left (λ w msg, AppendText (msg ++ newline) w) messages w.

(** An exception of [check_for_updates] is not caught here: it leaves the
    handler after [update_manager] was assigned and before [update_info]
    is. *)
Definition on_check (o : CheckOutcome) : Cmd := λ w,
  let w := sdk UiThread (UpdateManager_new update_url) w in
  match o with
  | constructor_raises e =>
      w |> logging_error ("Failed to initialize update manager: " ++ exc_str e)
  | constructed m r =>
      let w := w |> upd_frame (set_update_manager (Some m))
                 |> sdk UiThread (check_for_updates m) in
      match r with
      | check_raises _ => w
      | check_returns u =>
          let w := upd_frame (set_update_info u) w in
          match u with
          | Some i =>
              w |> logging_info ("Update available: " ++ info_str i)
                |> Enable DownloadBtn
                |> Enable ApplyBtn
          | None =>
              w |> logging_info "No updates available"
                |> Disable DownloadBtn
                |> Disable ApplyBtn
          end
      end
  end.

Definition progress_callback (progress : Z) : Cmd :=
  CallAfter (call_SetLabel DownloadBtn ("Downloading... " ++ pretty progress ++ "%")).

(** The statements after [download_updates] in the [try] block. *)
Definition download_done (original_label : string) : Cmd := λ w,
  w |> CallAfter (call_SetLabel DownloadBtn original_label)
    |> CallAfter (call_Enable DownloadBtn)
    |> CallAfter (call_Enable ApplyBtn)
    |> CallAfter (call_logging INFO "Update downloaded successfully").

(** The [except Exception as e] block. *)
Definition download_failed (e : Exception) : Cmd := λ w,
  w |> CallAfter (call_SetLabel DownloadBtn "Download")
    |> CallAfter (call_Enable DownloadBtn)
    |> CallAfter (call_Enable ApplyBtn)
    |> CallAfter (call_logging ERROR ("Failed to download update: " ++ exc_str e)).

Definition no_attribute (name : string) : Exception :=
  {| exc_str := "'NoneType' object has no attribute '" ++ name ++ "'" |}.

(** What the scheduler and the SDK let a download thread do next. *)
Inductive WorkerEvent :=
| w_get_label
| w_call
| w_progress (p : Z)
| w_returns
| w_raises (e : Exception).

(** One step of [download_thread] in thread [tid].  The thread reads
    [self.download_btn], [self.update_manager] and [self.update_info] when
    it reaches the statement, not when the button was clicked. *)
Definition download_thread (tid : nat) (ev : WorkerEvent) (w : World) : option World :=
  t ← threads w !! tid;
  match pc t, ev with
  | at_start, w_get_label =>
      Some (set_pc tid (label_saved (GetLabel DownloadBtn w)) w)
  | label_saved l, w_call =>
      match update_manager (frame w) with
      | Some m =>
          Some (w |> sdk (WorkerThread tid) (download_updates m (update_info (frame w)))
                  |> set_pc tid (in_download l))
      | None =>
          Some (w |> download_failed (no_attribute "download_updates")
                  |> set_pc tid finished)
      end
  | in_download l, w_progress p => Some (progress_callback p w)
  | in_download l, w_returns => Some (w |> download_done l |> set_pc tid finished)
  | in_download l, w_raises e => Some (w |> download_failed e |> set_pc tid finished)
  | _, _ => None
  end.

Definition on_download : Cmd := λ w,
  match update_info (frame w) with
  | None => w |> logging_warning "No update information available. Please check first."
  | Some _ =>
      w |> Disable DownloadBtn
        |> Disable ApplyBtn
        |> Thread_start true
  end.

Definition on_apply (o : ApplyOutcome) : Cmd := λ w,
  match update_info (frame w) with
  | None => w |> logging_warning "No update information available. Please check first."
  | Some i =>
      match update_manager (frame w) with
      | None =>
          w |> logging_error ("Failed to apply update: "
                              ++ exc_str (no_attribute "apply_updates_and_restart"))
      | Some m =>
          let w := sdk UiThread (apply_updates_and_restart m i) w in
          match o with
          | apply_returns => w |> logging_info "Update applied successfully"
          | apply_raises e => w |> logging_error ("Failed to apply update: " ++ exc_str e)
          end
      end
  end.

(** ** The event loop *)

Definition run_callback (o : Sdk) (cb : Callback) : Cmd :=
  match cb with
  | cb_on_check => on_check (sdk_check o)
  | cb_on_download => on_download
  | cb_on_apply => on_apply (sdk_apply o)
  | cb_on_timer => on_timer
  end.

Definition bound (src : EventSource) (bs : list (EventSource * Callback)) : list Callback :=
  (filter (λ p, p.1 = src) bs).*2.

(** The toolkit calls what [Bind] attached to the source of the event. *)
Definition dispatch (src : EventSource) (o : Sdk) : Cmd := λ w,
  fold_left (λ w cb, run_callback o cb w) (bound src (bindings (frame w))) w.

Definition run_call (c : UiCall) : Cmd :=
  match c with
  | call_SetLabel b s => SetLabel b s
  | call_Enable b => Enable b
  | call_logging lvl msg => upd_logging (log lvl msg)
  end.

Inductive UiEvent := Click (b : ButtonId) | TimerTick.

(** A UI event arrives together with the answers the SDK has for the
    handler it starts; [Idle] is the UI thread running the oldest
    [wx.CallAfter] call; [WorkerStep] lets a download thread advance. *)
Inductive Event :=
| Ui (e : UiEvent) (o : Sdk)
| Idle
| WorkerStep (tid : nat) (ev : WorkerEvent).

(** A disabled button delivers no click, a timer that was not started no
    tick. *)
Definition step (ev : Event) (w : World) : option World :=
  match ev with
  | Ui (Click b) o =>
      if enabled (button b (frame w)) then Some (dispatch (EVT_BUTTON b) o w) else None
  | Ui TimerTick o =>
      match timer (frame w) with
      | Some _ => Some (dispatch EVT_TIMER o w)
      | None => None
      end
  | Idle =>
      match pending w with
      | c :: q => Some (w |> set_pending q |> run_call c)
      | [] => None
      end
  | WorkerStep tid e => download_thread tid e w
  end.

Fixpoint run (evs : list Event) (w : World) : option World :=
  match evs with
  | [] => Some w
  | ev :: evs => w' ← step ev w; run evs w'
  end.

(** ** [if __name__ == "__main__"] *)

Definition process_start : World :=
  {| logging := logging_at_import; frame := widgets;
     sdk_calls := []; threads := []; pending := [] |}.

(** [setup_logging()], [velopack.App().run()], [MainFrame()]; the state in
    which [app.MainLoop()] starts. *)
Definition main : World :=
  process_start
    |> upd_logging setup_logging
    |> sdk UiThread App_run
    |> MainFrame__init__.

Definition reachable (w : World) : Prop := ∃ evs, run evs main = Some w.

End Program.

(** ** Notions used by the statements *)

(** The UI thread runs every queued [wx.CallAfter] call, oldest first. *)
Definition run_pending : Cmd := λ w,
  fold_left (λ w c, run_call c w) (pending w) (set_pending [] w).

(** The three calls on the update manager. *)
Definition is_manager_call (c : SdkCall) : bool :=
  match c with
  | check_for_updates _ | download_updates _ _ | apply_updates_and_restart _ _ => true
  | App_run | UpdateManager_new _ => false
  end.

Definition on_worker (t : ThreadId) : bool :=
  match t with WorkerThread _ => true | UiThread => false end.

Definition is_download_call (c : SdkCall) : bool :=
  match c with download_updates _ _ => true | _ => false end.







(** The state the logging set-up leaves and no handler changes. *)
Definition logging_configured (L : LoggingState) : Prop :=
  root_level L = levelno INFO
  ∧ root_handlers L = [log_handler_ref]
  ∧ level (log_handler L) = levelno INFO
  ∧ formatter (log_handler L) = Some log_format.

(** Who may enter the SDK through what, once the window is up. *)
Definition sdk_call_ok (url : string) (tc : ThreadId * SdkCall) : Prop :=
  match tc.2 with
  | App_run => False
  | UpdateManager_new u => u = url ∧ tc.1 = UiThread
  | download_updates _ _ => on_worker tc.1 = true
  | check_for_updates _ | apply_updates_and_restart _ _ => tc.1 = UiThread
  end.

Definition main_bindings : list (EventSource * Callback) :=
  [(EVT_BUTTON CheckBtn, cb_on_check);
   (EVT_BUTTON DownloadBtn, cb_on_download);
   (EVT_BUTTON ApplyBtn, cb_on_apply);
   (EVT_TIMER, cb_on_timer)].

(** What holds of every state of a run. *)
Record invariant (url : string) (w : World) : Prop := mkInvariant {
  inv_logging : logging_configured (logging w);
  inv_timer : timer (frame w) = Some 5;
  inv_bindings : bindings (frame w) = main_bindings;
  inv_manager : update_info (frame w) ≠ None → update_manager (frame w) ≠ None;
  inv_calls : ∃ rest, sdk_calls w = (UiThread, App_run) :: rest
                      ∧ Forall (sdk_call_ok url) rest;
  inv_daemon : Forall (λ t, daemon t = true) (threads w)
}.

(** Thread [tid] ends its download with [ev]: it leaves [lbl] and the two
    [Enable] calls and a log call in the queue, and once the UI thread has
    run the queue the Download button shows [lbl], both buttons are enabled
    and [line] is the newest entry of the log buffer. *)
Definition ui_restored (url : string) (tid : nat) (w : World) (ev : WorkerEvent)
    (lbl : string) (lvl : Level) (msg line : string) : Prop :=
  ∃ w1 w2,
    step url (WorkerStep tid ev) w = Some w1
    ∧ pending w1 = (pending w ++ [call_SetLabel DownloadBtn lbl; call_Enable DownloadBtn;
                                  call_Enable ApplyBtn; call_logging lvl msg])%list
    ∧ pc <$> threads w1 !! tid = Some finished
    ∧ run url (repeat Idle (length (pending w1))) w1 = Some w2
    ∧ download_btn (frame w2) = {| label := lbl; enabled := true |}
    ∧ enabled (apply_btn (frame w2)) = true
    ∧ last (buffer (log_handler (logging w2))) = Some line.

(** Every SDK call so far is one of the three calls on the update manager. *)
Definition only_manager_calls (w : World) : Prop :=
  Forall (λ tc, is_manager_call tc.2 = true) (sdk_calls w).


Definition no_update_warning : string :=
  "No update information available. Please check first.".

(** A click on Download that is delivered and finds update information
    stored: the only event that starts a thread. *)
Definition starts_download (ev : Event) (w : World) : bool :=
  match ev with
  | Ui (Click DownloadBtn) _ =>
      enabled (download_btn (frame w))
      && match update_info (frame w) with Some _ => true | None => false end
  | _ => false
  end.

(** How many such clicks the run [evs] from [w] has. *)
Fixpoint downloads_started (url : string) (evs : list Event) (w : World) : nat :=
  match evs with
  | [] => 0
  | ev :: evs =>
      ((if starts_download ev w then 1 else 0)
       + match step url ev w with
         | Some w' => downloads_started url evs w'
         | None => 0
         end)%nat
  end.

(** The whole run has started one worker thread at most. *)
Definition at_most_one_worker (w : World) : Prop := (length (threads w) ≤ 1)%nat.

(** ** Sample inputs *)

Definition sample_url : string := "https://updates.example/releases".
Definition sample_manager : UpdateManager := {| manager_handle := 1 |}.
Definition sample_info : UpdateInfo := {| info_str := "1.0.1" |}.

Definition sdk_update_found : Sdk :=
  {| sdk_check := constructed sample_manager (check_returns (Some sample_info));
     sdk_apply := apply_returns |}.

Definition sdk_no_update : Sdk :=
  {| sdk_check := constructed sample_manager (check_returns None);
     sdk_apply := apply_returns |}.

Definition sample_records : list LogRecord :=
  [mkLogRecord INFO "first"; mkLogRecord ERROR "second"].

(** Check finds an update. *)
Definition after_check : list Event := [Ui (Click CheckBtn) sdk_update_found].

(** Check, Download, and the download thread up to the SDK call. *)
Definition downloading : list Event :=
  after_check ++ [Ui (Click DownloadBtn) sdk_update_found;
                  WorkerStep 0 w_get_label; WorkerStep 0 w_call].

(** A whole download at 40 and 100 percent, its queued calls run. *)
Definition whole_download : list Event :=
  downloading ++ [WorkerStep 0 (w_progress 40); Idle; WorkerStep 0 (w_progress 100);
                  WorkerStep 0 w_returns; Idle; Idle; Idle; Idle; Idle].


Definition world_after_check : World :=
  Eval vm_compute in default main (run sample_url after_check main).

Definition world_downloading : World :=
  Eval vm_compute in default main (run sample_url downloading main).

Definition world_after_download : World :=
  Eval vm_compute in default main (run sample_url whole_download main).


(** Check is clicked again during the download and finds the update again,
    which enables Download; a second click on Download starts a second
    thread while the first is still inside the SDK. *)
Definition two_downloads : list Event :=
  downloading ++ [Ui (Click CheckBtn) sdk_update_found;
                  Ui (Click DownloadBtn) sdk_update_found;
                  WorkerStep 1 w_get_label; WorkerStep 1 w_call].

Definition world_two_downloads : World :=
  Eval vm_compute in default main (run sample_url two_downloads main).

(** ** Notions used beyond the claims *)

(** Everything logged so far, as it will stand in the log text control once
    the next tick has drained the buffer. *)
Definition all_lines (w : World) : string :=
  log_text (frame w)
  ++ join (map (λ msg, msg ++ newline) (buffer (log_handler (logging w)))).

(** The labels the program ever gives the Download button. *)
Definition download_label (s : string) : Prop :=
  s = "Download" ∨ ∃ p : Z, s = "Downloading... " ++ pretty p ++ "%".

Definition download_call (c : UiCall) : Prop :=
  match c with
  | call_SetLabel b s => b = DownloadBtn ∧ download_label s
  | call_Enable b => b ≠ CheckBtn
  | call_logging _ _ => True
  end.

Definition saved_label (t : Thread) : Prop :=
  match pc t with
  | label_saved l | in_download l => download_label l
  | at_start | finished => True
  end.

(** What holds of the widgets in every state of a run. *)
Record ui_invariant (w : World) : Prop := mkUiInvariant {
  ui_check : check_btn (frame w) = {| label := "Check"; enabled := true |};
  ui_apply : label (apply_btn (frame w)) = "Apply";
  ui_download : download_label (label (download_btn (frame w)));
  ui_pending : Forall download_call (pending w);
  ui_threads : Forall saved_label (threads w)
}.

Global Instance ThreadId_eq_dec : EqDecision ThreadId.
Proof. solve_decision. Defined.

(** How often thread [tid] has entered [download_updates]. *)
Definition download_calls_by (tid : nat) (w : World) : nat :=
  length (filter (λ tc, tc.1 = WorkerThread tid ∧ is_download_call tc.2 = true)
                 (sdk_calls w)).

(** The thread is at or past its [download_updates] call. *)
Definition past_call (p : WorkerPc) : bool :=
  match p with
  | in_download _ | finished => true
  | at_start | label_saved _ => false
  end.

Definition calls_match_threads (w : World) : Prop :=
  (threads w ≠ [] → update_manager (frame w) ≠ None)
  ∧ ∀ tid, download_calls_by tid w
           = match threads w !! tid with
             | Some t => if past_call (pc t) then 1%nat else 0%nat
             | None => 0%nat
             end.

(** From [w] to [w'] the log has only been added to, at its end. *)
Definition log_grows (w w' : World) : Prop :=
  ∃ s : string, all_lines w' = all_lines w ++ s.

(** A state with a stale handler on the root logger and a message already
    buffered, as [setup_logging] may find it. *)
Definition logging_in_use : LoggingState :=
  {| root_level := levelno ERROR;
     root_handlers := [foreign_handler 0; log_handler_ref; foreign_handler 1];
     log_handler := {| formatter := None; level := 0; buffer := ["early"] |} |}.

(** * Proofs *)

(** ** The log buffer *)

Lemma emit_buffer h r : buffer (emit h r) = (buffer h ++ [format h r])%list.
Proof. reflexivity. Qed.

Lemma emit_all_buffer rs : ∀ h,
  buffer (fold_left emit rs h) = (buffer h ++ map (format h) rs)%list
  ∧ formatter (fold_left emit rs h) = formatter h
  ∧ level (fold_left emit rs h) = level h.
Proof.
  induction rs as [|r rs IH]; intros h; simpl.
  - by rewrite app_nil_r.
  - destruct (IH (emit h r)) as (Hb & Hf & Hl).
    rewrite Hb, Hf, Hl. simpl. rewrite <- app_assoc. simpl.
    split_and!; done.
Qed.

(** C1. The handler is an append-and-drain queue: [emit] puts the formatted
    record at the end of the buffer, and after a drain and any sequence of
    emits, [get_messages] returns exactly the formatted records in the order
    they were emitted and leaves the buffer empty. *)
Theorem C1_append_and_drain (h : BufferedLogHandler) (records : list LogRecord) :
  (∀ r, buffer (emit h r) = (buffer h ++ [format h r])%list)
  ∧ (get_messages (fold_left emit records h)).1 = (buffer h ++ map (format h) records)%list
  ∧ (get_messages (fold_left emit records (get_messages h).2)).1 = map (format h) records
  ∧ buffer (get_messages (fold_left emit records (get_messages h).2)).2 = [].
Proof.
  split_and!.
  - intros r. apply emit_buffer.
  - simpl. apply emit_all_buffer.
  - simpl. by destruct (emit_all_buffer records (set_buffer [] h)) as (-> & _ & _).
  - reflexivity.
Qed.

Example drain_sample_records :
  get_messages (fold_left emit sample_records (log_handler (logging main)))
  = (["- INFO - GUI initialized and ready"; "- INFO - first"; "- ERROR - second"],
     {| formatter := Some log_format; level := 20; buffer := [] |}).
Proof. reflexivity. Qed.

(** C7. A second drain with no emit in between returns the empty list, and
    changes nothing. *)
Theorem C7_second_drain_empty (h : BufferedLogHandler) :
  (get_messages (get_messages h).2).1 = []
  ∧ (get_messages (get_messages h).2).2 = (get_messages h).2.
Proof. by destruct h. Qed.

(** ** Strings *)

Lemma append_empty_r (s : string) : s ++ EmptyString = s.
Proof.
  induction s as [|c s IH]; [done|].
  change (String c (s ++ EmptyString) = String c s). by rewrite IH.
Qed.

Lemma append_assoc (s1 s2 s3 : string) : (s1 ++ s2) ++ s3 = s1 ++ (s2 ++ s3).
Proof.
  induction s1 as [|c s1 IH]; [done|].
  change (String c ((s1 ++ s2) ++ s3) = String c (s1 ++ (s2 ++ s3))). by rewrite IH.
Qed.

(** ** Logging once it is configured *)

Lemma log_configured lvl msg L :
  logging_configured L →
  log lvl msg L = set_log_handler (emit (log_handler L) (mkLogRecord lvl msg)) L.
Proof.
  destruct L as [rl rh [fm lv buf]]. intros (Hrl & Hrh & Hlv & Hfm).
  simpl in *. subst. by destruct lvl.
Qed.

Lemma log_keeps_configured lvl msg L :
  logging_configured L → logging_configured (log lvl msg L).
Proof.
  intros H. rewrite (log_configured _ _ _ H).
  destruct L as [rl rh [fm lv buf]], H as (? & ? & ? & ?). by repeat split.
Qed.

Lemma log_buffer lvl msg L :
  logging_configured L →
  buffer (log_handler (log lvl msg L))
  = (buffer (log_handler L) ++ [("- " ++ levelname lvl ++ " - " ++ msg)%string])%list.
Proof.
  intros H. rewrite (log_configured _ _ _ H).
  destruct L as [rl rh [fm lv buf]], H as (? & ? & ? & Hfm).
  simpl in *. unfold format. simpl. rewrite Hfm.
  unfold render, log_format, join. simpl. by rewrite append_empty_r.
Qed.

(** ** The timer handler in closed form *)

Lemma append_all_text msgs : ∀ w,
  fold_left (λ w msg, AppendText (msg ++ newline) w) msgs w
  = upd_frame (λ f, set_log_text (log_text f ++ join (map (λ m, m ++ newline) msgs)) f) w.
Proof.
  induction msgs as [|m msgs IH]; intros w.
  - destruct w as [L [] calls ts q]. unfold upd_frame, set_log_text. simpl.
    by rewrite append_empty_r.
  - simpl. rewrite IH. destruct w as [L [] calls ts q].
    unfold upd_frame, AppendText, set_log_text. simpl.
    by rewrite append_assoc.
Qed.

Lemma on_timer_eq w :
  on_timer w
  = w |> upd_logging (set_log_handler (set_buffer [] (log_handler (logging w))))
      |> upd_frame (λ f, set_log_text
                           (log_text f ++ join (map (λ m, m ++ newline)
                                                    (buffer (log_handler (logging w))))) f).
Proof. unfold on_timer. simpl. apply append_all_text. Qed.

(** ** The invariant of the event loop *)

Lemma main_invariant url : invariant url main.
Proof.
  split.
  - by repeat split; vm_compute.
  - reflexivity.
  - reflexivity.
  - done.
  - exists []. by split.
  - constructor.
Qed.

Lemma upd_logging_invariant url g w :
  (∀ L, logging_configured L → logging_configured (g L)) →
  invariant url w → invariant url (upd_logging g w).
Proof. intros Hg []. split; simpl; auto. Qed.

Lemma log_invariant url lvl msg w :
  invariant url w → invariant url (upd_logging (log lvl msg) w).
Proof. apply upd_logging_invariant. intros L. apply log_keeps_configured. Qed.

Lemma Enable_invariant url b w : invariant url w → invariant url (Enable b w).
Proof. intros []. split; simpl; auto. Qed.

Lemma Disable_invariant url b w : invariant url w → invariant url (Disable b w).
Proof. intros []. split; simpl; auto. Qed.

Lemma SetLabel_invariant url b s w : invariant url w → invariant url (SetLabel b s w).
Proof. intros []. split; simpl; auto. Qed.

Lemma set_pending_invariant url q w : invariant url w → invariant url (set_pending q w).
Proof. intros []. split; simpl; auto. Qed.

Lemma CallAfter_invariant url c w : invariant url w → invariant url (CallAfter c w).
Proof. apply set_pending_invariant. Qed.

Lemma sdk_invariant url t c w :
  sdk_call_ok url (t, c) → invariant url w → invariant url (sdk t c w).
Proof.
  intros Hok [? ? ? ? (rest & Hc & Hrest) ?]. split; simpl; auto.
  exists (rest ++ [(t, c)])%list. rewrite Hc. split; [done|].
  apply Forall_app. split; [done|]. by constructor.
Qed.

Lemma set_pc_invariant url tid p w : invariant url w → invariant url (set_pc tid p w).
Proof.
  intros [? ? ? ? ? Hd]. split; simpl; auto.
  apply Forall_lookup. intros i t. rewrite list_lookup_alter.
  rewrite Forall_lookup in Hd.
  case_decide; [|by apply Hd].
  destruct (threads w !! tid) as [t0|] eqn:E; [|done].
  intros [= <-]. simpl. by eapply Hd.
Qed.

Lemma Thread_start_invariant url w : invariant url w → invariant url (Thread_start true w).
Proof.
  intros [? ? ? ? ? Hd]. split; simpl; auto.
  apply Forall_app. split; [done|]. by constructor.
Qed.

Lemma run_call_invariant url c w : invariant url w → invariant url (run_call c w).
Proof.
  destruct c; simpl; auto using SetLabel_invariant, Enable_invariant, log_invariant.
Qed.

Lemma on_timer_invariant url w : invariant url w → invariant url (on_timer w).
Proof.
  rewrite on_timer_eq. intros [(? & ? & ? & ?) ? ? ? ? ?]. split; simpl; auto.
  by repeat split.
Qed.

Lemma on_check_invariant url o w : invariant url w → invariant url (on_check url o w).
Proof.
  intros H.
  assert (invariant url (sdk UiThread (UpdateManager_new url) w)) as H1
    by (by apply sdk_invariant).
  unfold on_check.
  destruct o as [e|m r].
  { by apply log_invariant. }
  assert (invariant url (sdk UiThread (UpdateManager_new url) w
                         |> upd_frame (set_update_manager (Some m))
                         |> sdk UiThread (check_for_updates m))) as H2.
  { apply sdk_invariant; [done|]. destruct H1. split; simpl; auto. }
  destruct r as [e|[i|]]; [done| |].
  - apply Enable_invariant, Enable_invariant, log_invariant.
    destruct H2. split; simpl; auto.
  - apply Disable_invariant, Disable_invariant, log_invariant.
    destruct H2. split; simpl; auto.
Qed.

Lemma download_done_invariant url l w :
  invariant url w → invariant url (download_done l w).
Proof. intros H. unfold download_done. by do 4 apply CallAfter_invariant. Qed.

Lemma download_failed_invariant url e w :
  invariant url w → invariant url (download_failed e w).
Proof. intros H. unfold download_failed. by do 4 apply CallAfter_invariant. Qed.

Lemma on_download_invariant url w : invariant url w → invariant url (on_download w).
Proof.
  intros H. unfold on_download. destruct (update_info (frame w)).
  - by apply Thread_start_invariant, Disable_invariant, Disable_invariant.
  - by apply log_invariant.
Qed.

Lemma on_apply_invariant url o w : invariant url w → invariant url (on_apply o w).
Proof.
  intros H. unfold on_apply.
  destruct (update_info (frame w)); [|by apply log_invariant].
  destruct (update_manager (frame w)); [|by apply log_invariant].
  destruct o; apply log_invariant; by apply sdk_invariant.
Qed.

Lemma dispatch_invariant url src o w :
  invariant url w → invariant url (dispatch url src o w).
Proof.
  intros H. unfold dispatch. rewrite (inv_bindings _ _ H).
  destruct src as [[]|]; simpl;
    auto using on_check_invariant, on_download_invariant, on_apply_invariant,
               on_timer_invariant.
Qed.

Lemma download_thread_invariant url tid ev w w' :
  invariant url w → download_thread tid ev w = Some w' → invariant url w'.
Proof.
  intros H. unfold download_thread.
  destruct (threads w !! tid) as [t|]; [|done]. simpl.
  destruct (pc t), ev; try done;
    [|destruct (update_manager (frame w)) as [m|]|..]; intros [= <-].
  - by apply set_pc_invariant.
  - by apply set_pc_invariant, sdk_invariant.
  - by apply set_pc_invariant, download_failed_invariant.
  - by apply CallAfter_invariant.
  - by apply set_pc_invariant, download_done_invariant.
  - by apply set_pc_invariant, download_failed_invariant.
Qed.

Lemma step_invariant url ev w w' :
  invariant url w → step url ev w = Some w' → invariant url w'.
Proof.
  intros H. destruct ev as [[b|] o| |tid ev]; simpl.
  - destruct (enabled _); [|done]. intros [= <-]. by apply dispatch_invariant.
  - destruct (timer _); [|done]. intros [= <-]. by apply dispatch_invariant.
  - destruct (pending w); [done|]. intros [= <-].
    by apply run_call_invariant, set_pending_invariant.
  - by apply download_thread_invariant.
Qed.

Lemma run_invariant url evs : ∀ w w',
  invariant url w → run url evs w = Some w' → invariant url w'.
Proof.
  induction evs as [|ev evs IH]; intros w w' H; simpl.
  - by intros [= <-].
  - destruct (step url ev w) as [w1|] eqn:E; [|done]. simpl.
    apply IH. by eapply step_invariant.
Qed.

Lemma reachable_invariant url w : reachable url w → invariant url w.
Proof. intros [evs H]. eapply run_invariant; [apply main_invariant|done]. Qed.

(** ** The timer *)

(** C3. The timer is started with a period of 5 milliseconds and keeps it;
    every tick runs [on_timer], which drains the log buffer and appends each
    drained message, followed by a newline, to the log text control, in
    order. *)
Theorem C3_timer_drains_log (url : string) (w : World) (o : Sdk) :
  reachable url w →
  timer (frame w) = Some 5
  ∧ step url (Ui TimerTick o) w = Some (on_timer w)
  ∧ log_text (frame (on_timer w))
    = log_text (frame w)
      ++ join (map (λ msg, msg ++ newline) (buffer (log_handler (logging w))))
  ∧ buffer (log_handler (logging (on_timer w))) = [].
Proof.
  intros Hw. pose proof (reachable_invariant _ _ Hw) as H.
  split_and!.
  - apply H.
  - simpl. rewrite (inv_timer _ _ H). unfold dispatch.
    by rewrite (inv_bindings _ _ H).
  - by rewrite on_timer_eq.
  - by rewrite on_timer_eq.
Qed.

Lemma C3_timer_drains_log_witness :
  reachable sample_url main
  ∧ timer (frame main) = Some 5
  ∧ step sample_url (Ui TimerTick sdk_no_update) main = Some (on_timer main)
  ∧ log_text (frame (on_timer main))
    = log_text (frame main)
      ++ join (map (λ msg, msg ++ newline) (buffer (log_handler (logging main))))
  ∧ buffer (log_handler (logging (on_timer main))) = [].
Proof.
  split; [by exists []|].
  apply (C3_timer_drains_log sample_url main sdk_no_update). by exists [].
Defined.

(** ** Buttons and their handlers *)

(** C4. The frame has three buttons, labelled Check, Download and Apply, and
    [Bind] attaches exactly one handler to each: [on_check], [on_download]
    and [on_apply]; a click on an enabled button runs that handler and
    nothing else. *)
Theorem C4_three_buttons_three_handlers (url : string) (w : World) :
  reachable url w →
  (∀ b : ButtonId, b ∈ [CheckBtn; DownloadBtn; ApplyBtn])
  ∧ map (λ b, label (button b (frame main))) [CheckBtn; DownloadBtn; ApplyBtn]
    = ["Check"; "Download"; "Apply"]
  ∧ filter (λ p, p.1 ≠ EVT_TIMER) (bindings (frame w))
    = [(EVT_BUTTON CheckBtn, cb_on_check);
       (EVT_BUTTON DownloadBtn, cb_on_download);
       (EVT_BUTTON ApplyBtn, cb_on_apply)]
  ∧ (∀ b o, enabled (button b (frame w)) = true →
            step url (Ui (Click b) o) w
            = Some match b with
                   | CheckBtn => on_check url (sdk_check o) w
                   | DownloadBtn => on_download w
                   | ApplyBtn => on_apply (sdk_apply o) w
                   end).
Proof.
  intros Hw. pose proof (reachable_invariant _ _ Hw) as H.
  split_and!.
  - intros []; apply list_elem_of_In; simpl; auto.
  - reflexivity.
  - by rewrite (inv_bindings _ _ H).
  - intros b o Hb. simpl. rewrite Hb. unfold dispatch.
    rewrite (inv_bindings _ _ H). by destruct b.
Qed.

Lemma C4_three_buttons_three_handlers_witness :
  reachable sample_url main
  ∧ filter (λ p, p.1 ≠ EVT_TIMER) (bindings (frame main))
    = [(EVT_BUTTON CheckBtn, cb_on_check);
       (EVT_BUTTON DownloadBtn, cb_on_download);
       (EVT_BUTTON ApplyBtn, cb_on_apply)].
Proof.
  split; [by exists []|].
  apply (C4_three_buttons_three_handlers sample_url main). by exists [].
Defined.

(** ** The guards of the download and apply handlers *)

(** C9. With no stored update information, [on_download] and [on_apply]
    only log the warning: the formatted warning is appended to the log
    buffer, and the frame (buttons, [update_manager], [update_info]), the
    SDK calls made so far, the threads and the queued calls are unchanged. *)
Theorem C9_guards_without_update_info (url : string) (w : World) (o : ApplyOutcome) :
  reachable url w →
  update_info (frame w) = None →
  ∀ w', w' = on_download w ∨ w' = on_apply o w →
    buffer (log_handler (logging w'))
    = (buffer (log_handler (logging w))
       ++ ["- WARNING - No update information available. Please check first."])%list
    ∧ frame w' = frame w
    ∧ sdk_calls w' = sdk_calls w
    ∧ threads w' = threads w
    ∧ pending w' = pending w.
Proof.
  intros Hw Hnone w' Hw'. pose proof (reachable_invariant _ _ Hw) as H.
  assert (w' = logging_warning no_update_warning w) as ->.
  { destruct Hw' as [-> | ->]; unfold on_download, on_apply; by rewrite Hnone. }
  split_and!; try done.
  simpl. by rewrite log_buffer by apply H.
Qed.

Lemma C9_guards_without_update_info_witness :
  reachable sample_url main
  ∧ update_info (frame main) = None
  ∧ buffer (log_handler (logging (on_download main)))
    = ["- INFO - GUI initialized and ready";
       "- WARNING - No update information available. Please check first."]
  ∧ frame (on_apply apply_returns main) = frame main.
Proof.
  split; [by exists []|]. split; [reflexivity|].
  pose proof (C9_guards_without_update_info sample_url main apply_returns
                (ex_intro _ [] eq_refl) eq_refl) as H.
  split.
  - apply (H (on_download main)). by left.
  - apply (H (on_apply apply_returns main)). by right.
Defined.

(** ** Runs *)

Lemma run_cons url ev evs w w1 :
  step url ev w = Some w1 → run url (ev :: evs) w = run url evs w1.
Proof. intros H. simpl. by rewrite H. Qed.

Lemma run_call_pending c w : pending (run_call c w) = pending w.
Proof. by destruct c. Qed.

Lemma run_call_set_pending c q w :
  set_pending q (run_call c w) = run_call c (set_pending q w).
Proof. by destruct c. Qed.

(** Idling as often as there are queued calls runs them all. *)
Lemma run_idle url : ∀ q w,
  pending w = q → run url (repeat Idle (length q)) w = Some (run_pending w).
Proof.
  induction q as [|c q IH]; intros w Hq; unfold run_pending; rewrite Hq; simpl.
  - f_equal. destruct w. simpl in *. by subst.
  - rewrite Hq. simpl. rewrite IH.
    + unfold run_pending. rewrite run_call_pending. simpl.
      by rewrite run_call_set_pending.
    + by rewrite run_call_pending.
Qed.

Lemma run_calls_invariant url cs : ∀ w,
  invariant url w → invariant url (fold_left (λ w c, run_call c w) cs w).
Proof.
  induction cs as [|c cs IH]; intros w H; simpl; [done|].
  by apply IH, run_call_invariant.
Qed.

Lemma run_pending_snoc q cs w :
  pending w = (q ++ cs)%list →
  run_pending w
  = fold_left (λ w c, run_call c w) cs
      (fold_left (λ w c, run_call c w) q (set_pending [] w)).
Proof. intros Hq. unfold run_pending. by rewrite Hq, fold_left_app. Qed.

(** ** Progress *)

(** C6. Every progress value [p] that the SDK reports during the download
    call goes through [progress_callback], which queues for the UI thread a
    single call setting the Download button's label to
    ["Downloading... {p}%"]; the label is that string once the UI thread has
    run the queue. *)
Theorem C6_progress_sets_download_label
    (url : string) (w : World) (tid : nat) (t : Thread) (l : string) (p : Z) :
  threads w !! tid = Some t →
  pc t = in_download l →
  step url (WorkerStep tid (w_progress p)) w = Some (progress_callback p w)
  ∧ pending (progress_callback p w)
    = (pending w ++ [call_SetLabel DownloadBtn ("Downloading... " ++ pretty p ++ "%")])%list
  ∧ frame (progress_callback p w) = frame w
  ∧ ∃ w', run url (WorkerStep tid (w_progress p) :: repeat Idle (S (length (pending w)))) w
          = Some w'
          ∧ label (download_btn (frame w')) = "Downloading... " ++ pretty p ++ "%".
Proof.
  intros Ht Hpc.
  assert (step url (WorkerStep tid (w_progress p)) w = Some (progress_callback p w)) as Hstep.
  { simpl. unfold download_thread. rewrite Ht. simpl. by rewrite Hpc. }
  split_and!; try done.
  eexists. split.
  - rewrite (run_cons _ _ _ _ _ Hstep).
    replace (S (length (pending w)))
      with (length (pending (progress_callback p w))).
    + by apply run_idle.
    + simpl. rewrite length_app. simpl. lia.
  - rewrite (run_pending_snoc (pending w)
               [call_SetLabel DownloadBtn ("Downloading... " ++ pretty p ++ "%")])
      by done.
    by destruct (fold_left _ (pending w) _) as [? [] ? ? ?].
Qed.

Lemma C6_progress_sets_download_label_witness :
  threads world_downloading !! 0%nat = Some {| daemon := true; pc := in_download "Download" |}
  ∧ step sample_url (WorkerStep 0 (w_progress 40)) world_downloading
    = Some (progress_callback 40 world_downloading)
  ∧ pending (progress_callback 40 world_downloading)
    = [call_SetLabel DownloadBtn "Downloading... 40%"].
Proof.
  split; [reflexivity|].
  split; apply (C6_progress_sets_download_label sample_url world_downloading 0
                  {| daemon := true; pc := in_download "Download" |} "Download" 40
                  eq_refl eq_refl).
Defined.

(** ** The end of a download *)

Lemma finish_calls lbl lvl msg w :
  logging_configured (logging w) →
  let w' := fold_left (λ w c, run_call c w)
              [call_SetLabel DownloadBtn lbl; call_Enable DownloadBtn;
               call_Enable ApplyBtn; call_logging lvl msg] w in
  download_btn (frame w') = {| label := lbl; enabled := true |}
  ∧ enabled (apply_btn (frame w')) = true
  ∧ last (buffer (log_handler (logging w')))
    = Some ("- " ++ levelname lvl ++ " - " ++ msg).
Proof.
  intros HL. simpl. split_and!; try done.
  rewrite log_buffer by done. apply last_snoc.
Qed.

Lemma worker_finishes url tid t l ev w lbl lvl msg :
  invariant url w →
  threads w !! tid = Some t →
  pc t = in_download l →
  download_thread tid ev w
  = Some (w |> CallAfter (call_SetLabel DownloadBtn lbl)
            |> CallAfter (call_Enable DownloadBtn)
            |> CallAfter (call_Enable ApplyBtn)
            |> CallAfter (call_logging lvl msg)
            |> set_pc tid finished) →
  ui_restored url tid w ev lbl lvl msg ("- " ++ levelname lvl ++ " - " ++ msg).
Proof.
  intros H Ht Hpc Hstep.
  set (w1 := set_pc tid finished _) in Hstep.
  assert (pending w1
          = (pending w ++ [call_SetLabel DownloadBtn lbl; call_Enable DownloadBtn;
                           call_Enable ApplyBtn; call_logging lvl msg])%list) as Hq.
  { simpl. by rewrite <- !app_assoc. }
  exists w1, (run_pending w1). split_and!.
  - done.
  - done.
  - simpl. by rewrite list_lookup_alter_eq, Ht.
  - by apply run_idle.
  - rewrite (run_pending_snoc _ _ _ Hq). apply finish_calls.
    eapply inv_logging, run_calls_invariant, set_pending_invariant.
    eapply download_thread_invariant; [apply H|apply Hstep].
  - rewrite (run_pending_snoc _ _ _ Hq). apply finish_calls.
    eapply inv_logging, run_calls_invariant, set_pending_invariant.
    eapply download_thread_invariant; [apply H|apply Hstep].
  - rewrite (run_pending_snoc _ _ _ Hq). apply finish_calls.
    eapply inv_logging, run_calls_invariant, set_pending_invariant.
    eapply download_thread_invariant; [apply H|apply Hstep].
Qed.

(** C10. However the SDK's download call ends, the download thread queues
    the calls that restore the UI, and once the UI thread has run them both
    buttons are enabled, the Download button shows the saved label after a
    normal return and "Download" after an exception, and the success or the
    failure message is the newest entry of the log buffer. *)
Theorem C10_download_worker_restores_ui
    (url : string) (w : World) (tid : nat) (t : Thread) (l : string) :
  reachable url w →
  threads w !! tid = Some t →
  pc t = in_download l →
  ui_restored url tid w w_returns l INFO "Update downloaded successfully"
    "- INFO - Update downloaded successfully"
  ∧ ∀ e, ui_restored url tid w (w_raises e) "Download" ERROR
           ("Failed to download update: " ++ exc_str e)
           ("- ERROR - Failed to download update: " ++ exc_str e).
Proof.
  intros Hw Ht Hpc. pose proof (reachable_invariant _ _ Hw) as H.
  split; [|intros e].
  - eapply (worker_finishes url tid t l w_returns w l INFO); try done.
    unfold download_thread. rewrite Ht. simpl. by rewrite Hpc.
  - eapply (worker_finishes url tid t l (w_raises e) w "Download" ERROR); try done.
    unfold download_thread. rewrite Ht. simpl. by rewrite Hpc.
Qed.

Lemma C10_download_worker_restores_ui_witness :
  reachable sample_url world_downloading
  ∧ threads world_downloading !! 0%nat
    = Some {| daemon := true; pc := in_download "Download" |}
  ∧ ui_restored sample_url 0 world_downloading w_returns "Download" INFO
      "Update downloaded successfully" "- INFO - Update downloaded successfully".
Proof.
  split; [by exists downloading|]. split; [reflexivity|].
  apply (C10_download_worker_restores_ui sample_url world_downloading 0
           {| daemon := true; pc := in_download "Download" |} "Download"
           (ex_intro _ downloading eq_refl) eq_refl eq_refl).
Defined.

(** ** Threads *)

Lemma set_pc_lookup tid p w :
  threads (set_pc tid p w) !! tid
  = (λ t, {| daemon := daemon t; pc := p |}) <$> threads w !! tid.
Proof. simpl. apply list_lookup_alter_eq. Qed.

Lemma calls_by_thread url w :
  invariant url w → Forall (λ tc, on_worker tc.1 = is_download_call tc.2) (sdk_calls w).
Proof.
  intros [_ _ _ _ (rest & -> & Hrest) _]. constructor; [done|].
  eapply Forall_impl; [apply Hrest|].
  intros [t []]; unfold sdk_call_ok; simpl; try done.
  - by intros [_ ->].
  - by intros ->.
  - by intros ->.
Qed.

Lemma threads_step url ev w w' :
  invariant url w →
  step url ev w = Some w' →
  length (threads w') = (length (threads w) + if starts_download ev w then 1 else 0)%nat.
Proof.
  intros H. destruct ev as [[b|] o| |tid ev]; simpl.
  - destruct (enabled (button b (frame w))) eqn:Hb; [|done]. intros [= <-].
    unfold dispatch. rewrite (inv_bindings _ _ H). destruct b; simpl in *.
    + destruct (sdk_check o) as [e|m [e|[i|]]]; simpl; lia.
    + rewrite Hb. unfold on_download.
      destruct (update_info (frame w)); simpl; [rewrite length_app; simpl|]; lia.
    + unfold on_apply. destruct (update_info (frame w)); [|simpl; lia].
      destruct (update_manager (frame w)), (sdk_apply o); simpl; lia.
  - destruct (timer _); [|done]. intros [= <-]. unfold dispatch.
    rewrite (inv_bindings _ _ H). simpl. rewrite on_timer_eq. simpl. lia.
  - destruct (pending w) as [|c q]; [done|]. intros [= <-].
    destruct c; simpl; lia.
  - unfold download_thread. destruct (threads w !! tid) as [t|]; [|done]. simpl.
    destruct (pc t), ev; try done;
      [|destruct (update_manager (frame w))|..];
      intros [= <-]; simpl; rewrite ?length_alter; lia.
Qed.

Lemma threads_run url evs : ∀ w w',
  invariant url w →
  run url evs w = Some w' →
  length (threads w') = (length (threads w) + downloads_started url evs w)%nat.
Proof.
  induction evs as [|ev evs IH]; intros w w' H; simpl.
  - intros [= <-]. lia.
  - destruct (step url ev w) as [w1|] eqn:E; [|done]. simpl. intros Hrun.
    rewrite (IH w1 w') by eauto using step_invariant.
    rewrite (threads_step _ _ _ _ H E). lia.
Qed.

(** C5, as stated, fails for the run as a whole: Check stays enabled during
    a download and enables Download again, so a second click on Download
    starts a second thread while the first is still inside
    [download_updates]. *)
Lemma C5_counterexample :
  run sample_url two_downloads main = Some world_two_downloads
  ∧ threads world_two_downloads
    = [{| daemon := true; pc := in_download "Download" |};
       {| daemon := true; pc := in_download "Download" |}]
  ∧ ¬ at_most_one_worker world_two_downloads.
Proof.
  split; [vm_compute; reflexivity|]. split; [reflexivity|].
  unfold at_most_one_worker. simpl. lia.
Qed.

(** C5, amended. Threads are started for the download call only, one for
    each click on Download that finds update information stored:
    [on_download] then starts exactly one daemon thread and calls nothing in
    the SDK itself, and that thread makes the [download_updates] call;
    without update information it starts none.  [on_check] and [on_apply]
    start no thread in any state and make their SDK calls on the UI thread.
    A run has started as many threads as it has such clicks, all of them
    daemon threads, and the calls made off the UI thread are exactly the
    [download_updates] calls. *)
Theorem C5_worker_threads_only_for_download (url : string) :
  (∀ w oc,
     threads (on_check url oc w) = threads w
     ∧ sdk_calls (on_check url oc w)
       = (sdk_calls w
          ++ match oc with
             | constructor_raises _ => [(UiThread, UpdateManager_new url)]
             | constructed m _ =>
                 [(UiThread, UpdateManager_new url); (UiThread, check_for_updates m)]
             end)%list)
  ∧ (∀ w oa,
       threads (on_apply oa w) = threads w
       ∧ sdk_calls (on_apply oa w)
         = (sdk_calls w
            ++ match update_info (frame w), update_manager (frame w) with
               | Some u, Some m => [(UiThread, apply_updates_and_restart m u)]
               | _, _ => []
               end)%list)
  ∧ (∀ w,
       sdk_calls (on_download w) = sdk_calls w
       ∧ threads (on_download w)
         = (threads w
            ++ match update_info (frame w) with
               | Some _ => [{| daemon := true; pc := at_start |}]
               | None => []
               end)%list)
  ∧ (∀ w u,
       reachable url w →
       update_info (frame w) = Some u →
       ∃ m w',
         update_manager (frame w) = Some m
         ∧ run url [WorkerStep (length (threads w)) w_get_label;
                    WorkerStep (length (threads w)) w_call] (on_download w) = Some w'
         ∧ sdk_calls w'
           = (sdk_calls w
              ++ [(WorkerThread (length (threads w)), download_updates m (Some u))])%list)
  ∧ (∀ evs w,
       run url evs main = Some w →
       length (threads w) = downloads_started url evs main
       ∧ Forall (λ t, daemon t = true) (threads w)
       ∧ Forall (λ tc, on_worker tc.1 = is_download_call tc.2) (sdk_calls w)).
Proof.
  split_and!.
  - intros w oc. destruct oc as [e|m [e|[i|]]]; simpl; by rewrite <- ?app_assoc.
  - intros w oa. unfold on_apply.
    destruct (update_info (frame w)); [|simpl; by rewrite app_nil_r].
    destruct (update_manager (frame w)); [|simpl; by rewrite app_nil_r].
    by destruct oa.
  - intros w. unfold on_download.
    destruct (update_info (frame w)); simpl; by rewrite ?app_nil_r.
  - intros w u Hw Hu. pose proof (reachable_invariant _ _ Hw) as H.
    destruct (update_manager (frame w)) as [m|] eqn:Hm;
      [|by destruct (inv_manager _ _ H); [rewrite Hu|]].
    exists m.
    assert (on_download w = w |> Disable DownloadBtn |> Disable ApplyBtn |> Thread_start true)
      as Hd by (unfold on_download; by rewrite Hu).
    set (tid := length (threads w)).
    set (w0 := on_download w).
    assert (threads w0 !! tid = Some {| daemon := true; pc := at_start |}) as Ht0.
    { unfold w0. rewrite Hd. simpl. by apply list_lookup_middle. }
    set (w1 := set_pc tid (label_saved (GetLabel DownloadBtn w0)) w0).
    assert (step url (WorkerStep tid w_get_label) w0 = Some w1) as Hs1.
    { simpl. unfold download_thread. by rewrite Ht0. }
    assert (threads w1 !! tid
            = Some {| daemon := true; pc := label_saved (GetLabel DownloadBtn w0) |}) as Ht1.
    { unfold w1. by rewrite set_pc_lookup, Ht0. }
    assert (update_manager (frame w0) = Some m ∧ update_info (frame w0) = Some u) as [Hm0 Hu0].
    { unfold w0. rewrite Hd. simpl. by rewrite Hm, Hu. }
    eexists. split; [done|]. split.
    + rewrite (run_cons _ _ _ _ _ Hs1). simpl. unfold download_thread.
      rewrite Ht1. simpl. rewrite Hm0. simpl. reflexivity.
    + simpl. rewrite Hu0. unfold w0. by rewrite Hd.
  - intros evs w Hrun.
    pose proof (run_invariant _ _ _ _ (main_invariant url) Hrun) as H.
    split_and!.
    + by rewrite (threads_run _ _ _ _ (main_invariant url) Hrun).
    + apply H.
    + by eapply calls_by_thread.
Qed.

Lemma C5_worker_threads_only_for_download_witness :
  run sample_url two_downloads main = Some world_two_downloads
  ∧ length (threads world_two_downloads) = downloads_started sample_url two_downloads main
  ∧ downloads_started sample_url two_downloads main = 2%nat
  ∧ reachable sample_url world_after_check
  ∧ update_info (frame world_after_check) = Some sample_info
  ∧ ∃ m w',
      update_manager (frame world_after_check) = Some m
      ∧ run sample_url [WorkerStep (length (threads world_after_check)) w_get_label;
                        WorkerStep (length (threads world_after_check)) w_call]
          (on_download world_after_check) = Some w'
      ∧ sdk_calls w'
        = (sdk_calls world_after_check
           ++ [(WorkerThread (length (threads world_after_check)),
                download_updates m (Some sample_info))])%list.
Proof.
  assert (run sample_url two_downloads main = Some world_two_downloads) as Hrun
    by (vm_compute; reflexivity).
  assert (reachable sample_url world_after_check) as Hw by (by exists after_check).
  destruct (C5_worker_threads_only_for_download sample_url)
    as (_ & _ & _ & Hthread & Hcount).
  destruct (Hcount two_downloads world_two_downloads Hrun) as (Hlen & _ & _).
  split; [exact Hrun|]. split; [exact Hlen|].
  split; [vm_compute; reflexivity|]. split; [exact Hw|]. split; [reflexivity|].
  exact (Hthread world_after_check sample_info Hw eq_refl).
Defined.

(** ** The SDK calls of a run *)

(** C2, as stated, fails: before the window exists the program runs
    [velopack.App().run()], and every check first constructs an
    [UpdateManager]; neither is one of the three calls. *)
Lemma C2_counterexample :
  run sample_url after_check main = Some world_after_check
  ∧ sdk_calls world_after_check
    = [(UiThread, App_run);
       (UiThread, UpdateManager_new sample_url);
       (UiThread, check_for_updates sample_manager)]
  ∧ ¬ only_manager_calls main
  ∧ ¬ only_manager_calls world_after_check.
Proof.
  split_and!; try reflexivity.
  - intros H. by inversion H.
  - intros H. by inversion H.
Qed.

(** C2, amended. The SDK is entered through [velopack.App().run()] once,
    before anything else, through the [UpdateManager(update_url)]
    constructor at the start of every check, and otherwise only through the
    three calls on the update manager: check, download with progress, apply
    and restart. *)
Theorem C2_sdk_calls_of_a_run (url : string) (w : World) (o : CheckOutcome) :
  reachable url w →
  (∃ rest, sdk_calls w = (UiThread, App_run) :: rest
           ∧ Forall (λ tc, tc.2 = UpdateManager_new url ∨ is_manager_call tc.2 = true) rest)
  ∧ (∃ cs, sdk_calls (on_check url o w)
           = (sdk_calls w ++ (UiThread, UpdateManager_new url) :: cs)%list).
Proof.
  intros Hw. pose proof (reachable_invariant _ _ Hw) as H. split.
  - destruct (inv_calls _ _ H) as (rest & Hc & Hrest).
    exists rest. split; [done|].
    eapply Forall_impl; [apply Hrest|].
    intros [t []]; unfold sdk_call_ok; simpl; try done; auto.
    intros [-> _]. by left.
  - destruct o as [e|m [e|[i|]]]; simpl; eexists; by rewrite <- ?app_assoc.
Qed.

Lemma C2_sdk_calls_of_a_run_witness :
  reachable sample_url world_after_check
  ∧ ∃ rest, sdk_calls world_after_check = (UiThread, App_run) :: rest
            ∧ Forall (λ tc, tc.2 = UpdateManager_new sample_url
                            ∨ is_manager_call tc.2 = true) rest.
Proof.
  split; [by exists after_check|].
  apply (C2_sdk_calls_of_a_run sample_url world_after_check
           (constructor_raises (mkException "offline"))
           (ex_intro _ after_check eq_refl)).
Defined.

(** ** Buttons and stored update information *)







(** * Further properties of the program *)

(** ** [setup_logging] *)

Lemma remove_all_elem_of (hs0 : list HandlerRef) : ∀ hs h,
  h ∈ fold_left (λ hs h, removeHandler h hs) hs0 hs → h ∈ hs ∧ h ∉ hs0.
Proof.
  induction hs0 as [|h0 hs0 IH]; intros hs h; simpl.
  - intros Hh. split; [done|]. apply not_elem_of_nil.
  - intros [[Hne Hh]%list_elem_of_filter Hnot]%IH.
    split; [done|]. rewrite not_elem_of_cons. by split.
Qed.

Lemma remove_all_nil (hs : list HandlerRef) :
  fold_left (λ hs h, removeHandler h hs) hs hs = [].
Proof.
  destruct (fold_left _ hs hs) as [|h l] eqn:E; [done|].
  assert (h ∈ fold_left (λ hs h, removeHandler h hs) hs hs) as Hh
    by (rewrite E; apply list_elem_of_here).
  by apply remove_all_elem_of in Hh as [? ?].
Qed.

(** X1. Whatever handlers the root logger had and whatever was buffered,
    [setup_logging] leaves [log_handler] as the only handler, both levels at
    INFO and the program's format in place, keeps the buffered messages, and
    calling it again changes nothing. *)
Theorem setup_logging_configures (L : LoggingState) :
  logging_configured (setup_logging L)
  ∧ buffer (log_handler (setup_logging L)) = buffer (log_handler L)
  ∧ setup_logging (setup_logging L) = setup_logging L.
Proof.
  unfold setup_logging. rewrite remove_all_nil. simpl.
  split_and!; try done.
Qed.

Example setup_logging_in_use :
  setup_logging logging_in_use
  = {| root_level := 20; root_handlers := [log_handler_ref];
       log_handler := {| formatter := Some log_format; level := 20;
                         buffer := ["early"] |} |}.
Proof. reflexivity. Qed.

(** ** A logging call *)

(** X2. Once logging is set up, a call of [logging.info], [logging.warning]
    or [logging.error] appends exactly one line, ["- LEVEL - message"], at
    the end of the buffer, and leaves the set-up as it is. *)
Theorem log_appends_one_line (lvl : Level) (msg : string) (L : LoggingState) :
  logging_configured L →
  buffer (log_handler (log lvl msg L))
  = (buffer (log_handler L) ++ [("- " ++ levelname lvl ++ " - " ++ msg)%string])%list
  ∧ logging_configured (log lvl msg L).
Proof.
  intros H. split; [by apply log_buffer|by apply log_keeps_configured].
Qed.

Lemma log_appends_one_line_witness :
  logging_configured (setup_logging logging_in_use)
  ∧ buffer (log_handler (log WARNING "disk low" (setup_logging logging_in_use)))
    = ["early"; "- WARNING - disk low"].
Proof.
  assert (logging_configured (setup_logging logging_in_use)) as H
    by (repeat split; vm_compute; reflexivity).
  split; [exact H|].
  apply (log_appends_one_line WARNING "disk low" (setup_logging logging_in_use) H).
Defined.

(** ** Failures of the check *)

(** X4. When the [UpdateManager] constructor raises, [on_check] logs
    ["Failed to initialize update manager: ..."] as an error and stops: the
    constructor is the only SDK call, and the stored manager, the stored
    update information, the buttons, the threads and the queued calls are
    as before. *)
Theorem on_check_constructor_fails (url : string) (w : World) (e : Exception) :
  reachable url w →
  frame (on_check url (constructor_raises e) w) = frame w
  ∧ sdk_calls (on_check url (constructor_raises e) w)
    = (sdk_calls w ++ [(UiThread, UpdateManager_new url)])%list
  ∧ buffer (log_handler (logging (on_check url (constructor_raises e) w)))
    = (buffer (log_handler (logging w))
       ++ [("- ERROR - Failed to initialize update manager: " ++ exc_str e)%string])%list
  ∧ threads (on_check url (constructor_raises e) w) = threads w
  ∧ pending (on_check url (constructor_raises e) w) = pending w.
Proof.
  intros Hw. pose proof (reachable_invariant _ _ Hw) as H.
  split_and!; try done.
  simpl. by rewrite log_buffer by apply H.
Qed.

Lemma on_check_constructor_fails_witness :
  reachable sample_url world_after_check
  ∧ frame (on_check sample_url (constructor_raises (mkException "offline")) world_after_check)
    = frame world_after_check
  ∧ sdk_calls (on_check sample_url (constructor_raises (mkException "offline"))
                 world_after_check)
    = (sdk_calls world_after_check ++ [(UiThread, UpdateManager_new sample_url)])%list.
Proof.
  split; [by exists after_check|].
  split; apply (on_check_constructor_fails sample_url world_after_check
                  (mkException "offline") (ex_intro _ after_check eq_refl)).
Defined.

(** ** The apply handler *)

(** X5. [on_apply] never changes the frame, the threads or the queued
    calls, whatever the SDK does.  With update information stored it logs
    ["Update applied successfully"] when [apply_updates_and_restart] returns
    and ["Failed to apply update: ..."] as an error when it raises. *)
Theorem on_apply_only_logs (url : string) (w : World) (u : UpdateInfo) :
  reachable url w →
  update_info (frame w) = Some u →
  (∀ o, frame (on_apply o w) = frame w
        ∧ threads (on_apply o w) = threads w
        ∧ pending (on_apply o w) = pending w)
  ∧ buffer (log_handler (logging (on_apply apply_returns w)))
    = (buffer (log_handler (logging w)) ++ ["- INFO - Update applied successfully"])%list
  ∧ ∀ e, buffer (log_handler (logging (on_apply (apply_raises e) w)))
         = (buffer (log_handler (logging w))
            ++ [("- ERROR - Failed to apply update: " ++ exc_str e)%string])%list.
Proof.
  intros Hw Hu. pose proof (reachable_invariant _ _ Hw) as H.
  destruct (update_manager (frame w)) as [m|] eqn:Hm;
    [|by destruct (inv_manager _ _ H); [rewrite Hu|]].
  split_and!.
  - intros o. unfold on_apply. rewrite Hu, Hm. by destruct o.
  - unfold on_apply. rewrite Hu, Hm. simpl. by rewrite log_buffer by apply H.
  - intros e. unfold on_apply. rewrite Hu, Hm. simpl. by rewrite log_buffer by apply H.
Qed.

Lemma on_apply_only_logs_witness :
  reachable sample_url world_after_check
  ∧ update_info (frame world_after_check) = Some sample_info
  ∧ buffer (log_handler (logging (on_apply apply_returns world_after_check)))
    = (buffer (log_handler (logging world_after_check))
       ++ ["- INFO - Update applied successfully"])%list.
Proof.
  split; [by exists after_check|]. split; [reflexivity|].
  destruct (on_apply_only_logs sample_url world_after_check sample_info
              (ex_intro _ after_check eq_refl) eq_refl) as (_ & Hok & _).
  exact Hok.
Defined.

(** ** A tick with nothing to show *)

(** X6. A timer tick changes the state exactly when the log buffer holds a
    message; in particular a second tick right after the first changes
    nothing.  A tick never touches the buttons, the stored manager and update
    information, the SDK calls, the threads or the queued calls. *)
Theorem on_timer_changes_iff_buffered (w : World) :
  (on_timer w = w ↔ buffer (log_handler (logging w)) = [])
  ∧ on_timer (on_timer w) = on_timer w
  ∧ (∀ b, button b (frame (on_timer w)) = button b (frame w))
  ∧ update_manager (frame (on_timer w)) = update_manager (frame w)
  ∧ update_info (frame (on_timer w)) = update_info (frame w)
  ∧ sdk_calls (on_timer w) = sdk_calls w
  ∧ threads (on_timer w) = threads w
  ∧ pending (on_timer w) = pending w.
Proof.
  rewrite !on_timer_eq. split_and!; try done.
  - split.
    + intros Heq. apply (f_equal (λ w, buffer (log_handler (logging w)))) in Heq.
      by rewrite <- Heq.
    + destruct w as [[rl rh [fm lv buf]] [] calls ts q]. simpl. intros ->.
      unfold upd_frame, upd_logging, set_log_handler, set_buffer, set_log_text. simpl.
      by rewrite append_empty_r.
  - destruct w as [[rl rh [fm lv buf]] [] calls ts q].
    unfold upd_frame, upd_logging, set_log_handler, set_buffer, set_log_text. simpl.
    by rewrite append_empty_r.
Qed.

(** ** What changes the stored manager and update information *)

(** X3. The stored update information changes only when Check is clicked
    and [check_for_updates] returns, and then it is what the call returned;
    the stored manager changes only when Check is clicked and the
    constructor succeeds.  No other click, no tick, no queued call and no
    step of a download thread writes either of them. *)
Theorem stored_state_changes_only_on_check
    (url : string) (ev : Event) (w w' : World) :
  reachable url w →
  step url ev w = Some w' →
  (update_info (frame w') ≠ update_info (frame w) →
   ∃ o m, ev = Ui (Click CheckBtn) o
          ∧ sdk_check o = constructed m (check_returns (update_info (frame w'))))
  ∧ (update_manager (frame w') ≠ update_manager (frame w) →
     ∃ o m r, ev = Ui (Click CheckBtn) o
              ∧ sdk_check o = constructed m r
              ∧ update_manager (frame w') = Some m).
Proof.
  intros Hw. pose proof (reachable_invariant _ _ Hw) as H.
  destruct ev as [[b|] o| |tid ev]; simpl.
  - destruct (enabled _); [|done]. intros [= <-]. unfold dispatch.
    rewrite (inv_bindings _ _ H). destruct b; simpl.
    + destruct (sdk_check o) as [e|m [e|u]] eqn:Ho.
      * by split.
      * split; [done|]. intros _. by exists o, m, (check_raises e).
      * split; intros _.
        -- exists o, m. split; [done|]. by destruct u.
        -- exists o, m, (check_returns u). split; [done|]. split; [done|].
           by destruct u.
    + unfold on_download.
      destruct (update_info (frame w)) eqn:Hu; simpl; by rewrite ?Hu.
    + unfold on_apply.
      destruct (update_info (frame w)) eqn:Hu, (update_manager (frame w)) eqn:Hm,
        (sdk_apply o); simpl; by rewrite ?Hu, ?Hm.
  - destruct (timer _); [|done]. intros [= <-]. unfold dispatch.
    rewrite (inv_bindings _ _ H). simpl. by rewrite on_timer_eq.
  - destruct (pending w) as [|c q]; [done|]. intros [= <-]. by destruct c.
  - unfold download_thread. destruct (threads w !! tid) as [t|]; [|done]. simpl.
    destruct (pc t), ev; try done;
      [|destruct (update_manager (frame w)) eqn:Hm|..];
      intros [= <-]; simpl; by rewrite ?Hm.
Qed.

Lemma stored_state_changes_only_on_check_witness :
  reachable sample_url main
  ∧ step sample_url (Ui (Click CheckBtn) sdk_update_found) main = Some world_after_check
  ∧ ∃ o m, Ui (Click CheckBtn) sdk_update_found = Ui (Click CheckBtn) o
           ∧ sdk_check o
             = constructed m (check_returns (update_info (frame world_after_check))).
Proof.
  assert (reachable sample_url main) as Hw by (by exists []).
  assert (step sample_url (Ui (Click CheckBtn) sdk_update_found) main
          = Some world_after_check) as Hs by (vm_compute; reflexivity).
  split; [exact Hw|]. split; [exact Hs|].
  destruct (stored_state_changes_only_on_check sample_url _ main world_after_check
              Hw Hs) as [Hinfo _].
  apply Hinfo. vm_compute. discriminate.
Defined.

(** ** Nothing logged is lost *)

Lemma join_app (l1 l2 : list string) : join (l1 ++ l2) = join l1 ++ join l2.
Proof.
  induction l1 as [|s l1 IH]; [done|].
  change (s ++ join (l1 ++ l2) = (s ++ join l1) ++ join l2).
  by rewrite IH, append_assoc.
Qed.

Lemma log_grows_refl w : log_grows w w.
Proof. exists EmptyString. by rewrite append_empty_r. Qed.

Lemma log_grows_trans w1 w2 w3 : log_grows w1 w2 → log_grows w2 w3 → log_grows w1 w3.
Proof.
  intros [s1 H1] [s2 H2]. exists (s1 ++ s2). by rewrite H2, H1, append_assoc.
Qed.

Lemma log_grows_same w w' :
  logging w' = logging w → log_text (frame w') = log_text (frame w) → log_grows w w'.
Proof.
  intros HL Ht. exists EmptyString. unfold all_lines.
  by rewrite HL, Ht, append_empty_r.
Qed.

Lemma log_grows_log lvl msg w :
  logging_configured (logging w) → log_grows w (upd_logging (log lvl msg) w).
Proof.
  intros H. eexists. unfold all_lines. simpl.
  rewrite log_buffer by done. by rewrite map_app, join_app, append_assoc.
Qed.

Lemma log_grows_on_timer w : log_grows w (on_timer w).
Proof.
  rewrite on_timer_eq. exists EmptyString. unfold all_lines. simpl.
  by rewrite !append_empty_r.
Qed.

Lemma log_grows_step url ev w w' :
  invariant url w → step url ev w = Some w' → log_grows w w'.
Proof.
  intros H. pose proof (inv_logging _ _ H) as HL.
  destruct ev as [[b|] o| |tid ev]; simpl.
  - destruct (enabled _); [|done]. intros [= <-]. unfold dispatch.
    rewrite (inv_bindings _ _ H). destruct b; simpl.
    + unfold on_check. destruct (sdk_check o) as [e|m [e|[i|]]].
      * by apply (log_grows_log ERROR _ (sdk UiThread (UpdateManager_new url) w)).
      * by apply log_grows_same.
      * set (w0 := upd_frame (set_update_info _) _).
        apply (log_grows_trans _ w0); [by apply log_grows_same|].
        apply (log_grows_trans _ (logging_info ("Update available: " ++ info_str i) w0));
          [by apply log_grows_log|by apply log_grows_same].
      * set (w0 := upd_frame (set_update_info _) _).
        apply (log_grows_trans _ w0); [by apply log_grows_same|].
        apply (log_grows_trans _ (logging_info "No updates available" w0));
          [by apply log_grows_log|by apply log_grows_same].
    + unfold on_download. destruct (update_info (frame w)).
      * by apply log_grows_same.
      * by apply log_grows_log.
    + unfold on_apply. destruct (update_info (frame w)); [|by apply log_grows_log].
      destruct (update_manager (frame w)); [|by apply log_grows_log].
      destruct (sdk_apply o);
        by apply (log_grows_log _ _ (sdk UiThread (apply_updates_and_restart _ _) w)).
  - destruct (timer _); [|done]. intros [= <-]. unfold dispatch.
    rewrite (inv_bindings _ _ H). simpl. apply log_grows_on_timer.
  - destruct (pending w) as [|c q]; [done|]. intros [= <-].
    destruct c as [b s|b|lvl msg]; simpl.
    + by apply log_grows_same.
    + by apply log_grows_same.
    + by apply (log_grows_log lvl msg (set_pending q w)).
  - unfold download_thread. destruct (threads w !! tid) as [t|]; [|done]. simpl.
    destruct (pc t), ev; try done;
      [|destruct (update_manager (frame w))|..];
      intros [= <-]; by apply log_grows_same.
Qed.

(** X7. Over any stretch of a run the log is only added to at its end: the
    text already shown, followed by the messages still buffered, is a prefix
    of the same text later.  No handler, tick or thread drops, reorders or
    rewrites what was logged. *)
Theorem log_is_append_only (url : string) (evs : list Event) (w w' : World) :
  reachable url w →
  run url evs w = Some w' →
  log_grows w w'.
Proof.
  intros Hw. pose proof (reachable_invariant _ _ Hw) as H. clear Hw.
  revert w H. induction evs as [|ev evs IH]; intros w H; simpl.
  - intros [= <-]. apply log_grows_refl.
  - destruct (step url ev w) as [w1|] eqn:E; [|done]. simpl. intros Hrun.
    eapply log_grows_trans; [by eapply log_grows_step|].
    apply IH; [by eapply step_invariant|done].
Qed.

Lemma log_is_append_only_witness :
  reachable sample_url main
  ∧ run sample_url whole_download main = Some world_after_download
  ∧ log_grows main world_after_download.
Proof.
  assert (reachable sample_url main) as Hw by (by exists []).
  assert (run sample_url whole_download main = Some world_after_download) as Hrun
    by (vm_compute; reflexivity).
  split; [exact Hw|]. split; [exact Hrun|].
  exact (log_is_append_only sample_url whole_download main world_after_download Hw Hrun).
Defined.

(** ** The widgets over a run *)

Lemma ui_same w w' :
  (∀ b, button b (frame w') = button b (frame w)) →
  pending w' = pending w →
  threads w' = threads w →
  ui_invariant w → ui_invariant w'.
Proof.
  intros Hb Hq Ht [].
  pose proof (Hb CheckBtn) as Hc. pose proof (Hb DownloadBtn) as Hd.
  pose proof (Hb ApplyBtn) as Ha. simpl in *.
  split; by rewrite ?Hc, ?Hd, ?Ha, ?Hq, ?Ht.
Qed.

Lemma ui_Enable b w : b ≠ CheckBtn → ui_invariant w → ui_invariant (Enable b w).
Proof. intros Hb []. by destruct b. Qed.

Lemma ui_Disable b w : b ≠ CheckBtn → ui_invariant w → ui_invariant (Disable b w).
Proof. intros Hb []. by destruct b. Qed.

Lemma ui_SetLabel s w :
  download_label s → ui_invariant w → ui_invariant (SetLabel DownloadBtn s w).
Proof. by intros Hs []. Qed.

Lemma ui_CallAfter c w : download_call c → ui_invariant w → ui_invariant (CallAfter c w).
Proof.
  intros Hc []. split; simpl; try done.
  apply Forall_app. split; [done|]. by constructor.
Qed.

Lemma ui_Thread_start d w : ui_invariant w → ui_invariant (Thread_start d w).
Proof.
  intros []. split; simpl; try done.
  apply Forall_app. split; [done|]. by constructor.
Qed.

Lemma ui_set_pc tid p w :
  saved_label {| daemon := true; pc := p |} →
  ui_invariant w → ui_invariant (set_pc tid p w).
Proof.
  intros Hp []. split; simpl; try done.
  apply Forall_alter; [done|]. by intros t _ _.
Qed.

Lemma ui_run_call c w : download_call c → ui_invariant w → ui_invariant (run_call c w).
Proof.
  destruct c as [b s|b|lvl msg]; simpl.
  - intros [-> Hs]. by apply ui_SetLabel.
  - apply ui_Enable.
  - intros _. by apply ui_same.
Qed.

Lemma ui_download_done l w :
  download_label l → ui_invariant w → ui_invariant (download_done l w).
Proof.
  intros Hl H. unfold download_done. by repeat apply ui_CallAfter.
Qed.

Lemma ui_download_failed e w : ui_invariant w → ui_invariant (download_failed e w).
Proof.
  intros H. unfold download_failed. repeat apply ui_CallAfter; try done.
  split; [done|]. by left.
Qed.

Lemma ui_main : ui_invariant main.
Proof. split; try done. by left. Qed.

Lemma ui_step url ev w w' :
  invariant url w → ui_invariant w → step url ev w = Some w' → ui_invariant w'.
Proof.
  intros H U. destruct ev as [[b|] o| |tid ev]; simpl.
  - destruct (enabled _); [|done]. intros [= <-]. unfold dispatch.
    rewrite (inv_bindings _ _ H). destruct b; simpl.
    + unfold on_check. destruct (sdk_check o) as [e|m [e|[i|]]].
      * by apply (ui_same w).
      * by apply (ui_same w).
      * do 2 (apply ui_Enable; [done|]). by apply (ui_same w).
      * do 2 (apply ui_Disable; [done|]). by apply (ui_same w).
    + unfold on_download. destruct (update_info (frame w)).
      * apply ui_Thread_start. by do 2 (apply ui_Disable; [done|]).
      * by apply (ui_same w).
    + unfold on_apply. destruct (update_info (frame w)); [|by apply (ui_same w)].
      destruct (update_manager (frame w)); [|by apply (ui_same w)].
      destruct (sdk_apply o); by apply (ui_same w).
  - destruct (timer _); [|done]. intros [= <-]. unfold dispatch.
    rewrite (inv_bindings _ _ H). simpl. rewrite on_timer_eq. by apply (ui_same w).
  - destruct (pending w) as [|c q] eqn:Hq; [done|]. intros [= <-].
    pose proof (ui_pending _ U) as Hp. rewrite Hq in Hp.
    apply Forall_cons in Hp as [Hc Hp].
    apply ui_run_call; [done|]. destruct U. by split.
  - unfold download_thread. destruct (threads w !! tid) as [t|] eqn:Ht; [|done]. simpl.
    pose proof (Forall_lookup_1 _ _ _ _ (ui_threads _ U) Ht) as Hs.
    unfold saved_label in Hs.
    destruct (pc t) as [|l|l|], ev; try done;
      [|destruct (update_manager (frame w))|..]; intros [= <-].
    + apply ui_set_pc; [|done]. apply U.
    + apply ui_set_pc; [done|]. by apply (ui_same w).
    + by apply ui_set_pc, ui_download_failed.
    + apply ui_CallAfter; [|done]. split; [done|]. right. by exists p.
    + by apply ui_set_pc, ui_download_done.
    + by apply ui_set_pc, ui_download_failed.
Qed.

Lemma ui_reachable url w : reachable url w → ui_invariant w.
Proof.
  intros [evs Hrun].
  assert (∀ evs w0, invariant url w0 → ui_invariant w0 →
                    run url evs w0 = Some w → ui_invariant w) as Hind.
  { clear. induction evs as [|ev evs IH]; intros w0 H U; simpl.
    - by intros [= <-].
    - destruct (step url ev w0) as [w1|] eqn:E; [|done]. simpl.
      apply IH; [by eapply step_invariant|by eapply ui_step]. }
  eapply Hind; [apply main_invariant|apply ui_main|done].
Qed.

(** X8. The Check button is never disabled and never relabelled, so a click
    on Check is always delivered and runs [on_check]; the Apply button keeps
    its label too.  Only the Download button's label and the enabled state of
    Download and Apply ever change. *)
Theorem check_button_always_live (url : string) (w : World) (o : Sdk) :
  reachable url w →
  check_btn (frame w) = {| label := "Check"; enabled := true |}
  ∧ label (apply_btn (frame w)) = "Apply"
  ∧ step url (Ui (Click CheckBtn) o) w = Some (on_check url (sdk_check o) w).
Proof.
  intros Hw. pose proof (ui_reachable _ _ Hw) as U.
  pose proof (reachable_invariant _ _ Hw) as H.
  split_and!; try apply U.
  simpl. rewrite (ui_check _ U). simpl. unfold dispatch.
  by rewrite (inv_bindings _ _ H).
Qed.

Lemma check_button_always_live_witness :
  reachable sample_url world_downloading
  ∧ check_btn (frame world_downloading) = {| label := "Check"; enabled := true |}
  ∧ label (apply_btn (frame world_downloading)) = "Apply"
  ∧ step sample_url (Ui (Click CheckBtn) sdk_no_update) world_downloading
    = Some (on_check sample_url (sdk_check sdk_no_update) world_downloading).
Proof.
  assert (reachable sample_url world_downloading) as Hw by (by exists downloading).
  split; [exact Hw|].
  exact (check_button_always_live sample_url world_downloading sdk_no_update Hw).
Defined.

(** X9. The Download button only ever reads "Download" or
    "Downloading... p%" for a progress value [p] that the SDK reported. *)
Theorem download_button_label (url : string) (w : World) :
  reachable url w →
  label (download_btn (frame w)) = "Download"
  ∨ ∃ p : Z, label (download_btn (frame w)) = "Downloading... " ++ pretty p ++ "%".
Proof. intros Hw. apply (ui_download _ (ui_reachable _ _ Hw)). Qed.

Lemma download_button_label_witness :
  reachable sample_url world_after_download
  ∧ (label (download_btn (frame world_after_download)) = "Download"
     ∨ ∃ p : Z, label (download_btn (frame world_after_download))
                = "Downloading... " ++ pretty p ++ "%").
Proof.
  assert (reachable sample_url world_after_download) as Hw.
  { exists whole_download. vm_compute. reflexivity. }
  split; [exact Hw|].
  exact (download_button_label sample_url world_after_download Hw).
Defined.

(** ** One download call for each thread *)

Lemma ui_calls_not_counted tid (cs : list (ThreadId * SdkCall)) :
  Forall (λ tc, tc.1 = UiThread) cs →
  filter (λ tc, tc.1 = WorkerThread tid ∧ is_download_call tc.2 = true) cs = [].
Proof.
  induction 1 as [|tc cs Htc _ IH]; [done|].
  rewrite filter_cons_False; [done|]. intros [Hw _]. congruence.
Qed.

Lemma match_threads_ui w w' :
  threads w' = threads w →
  (update_manager (frame w) ≠ None → update_manager (frame w') ≠ None) →
  (∃ cs, sdk_calls w' = (sdk_calls w ++ cs)%list ∧ Forall (λ tc, tc.1 = UiThread) cs) →
  calls_match_threads w → calls_match_threads w'.
Proof.
  intros Ht Hm (cs & Hc & Hcs) [Hmgr Hcount]. split.
  - rewrite Ht. auto.
  - intros tid. rewrite Ht, <- (Hcount tid). unfold download_calls_by.
    rewrite Hc, filter_app, length_app, (ui_calls_not_counted _ _ Hcs). simpl. lia.
Qed.

Lemma match_threads_same w w' :
  threads w' = threads w →
  update_manager (frame w') = update_manager (frame w) →
  sdk_calls w' = sdk_calls w →
  calls_match_threads w → calls_match_threads w'.
Proof.
  intros Ht Hm Hc. apply match_threads_ui; [done|by rewrite Hm|].
  exists []. by rewrite Hc, app_nil_r.
Qed.

Lemma match_threads_set_pc tid t p w :
  threads w !! tid = Some t →
  past_call p = past_call (pc t) →
  calls_match_threads w → calls_match_threads (set_pc tid p w).
Proof.
  intros Ht Hp [Hmgr Hcount]. split.
  - intros _. apply Hmgr. intros Hnil. by rewrite Hnil in Ht.
  - intros tid'. change (download_calls_by tid' (set_pc tid p w))
      with (download_calls_by tid' w).
    rewrite Hcount. simpl. rewrite list_lookup_alter. case_decide; [|done].
    subst. rewrite Ht. simpl. by rewrite Hp.
Qed.

Lemma match_threads_start w :
  update_manager (frame w) ≠ None →
  calls_match_threads w → calls_match_threads (Thread_start true w).
Proof.
  intros Hm [_ Hcount]. split; [done|].
  intros tid. change (download_calls_by tid (Thread_start true w))
    with (download_calls_by tid w).
  rewrite Hcount. simpl. rewrite lookup_app.
  destruct (threads w !! tid); [done|]. by destruct (tid - length (threads w))%nat.
Qed.

Lemma match_threads_call tid t l m w :
  threads w !! tid = Some t →
  pc t = label_saved l →
  calls_match_threads w →
  calls_match_threads
    (w |> sdk (WorkerThread tid) (download_updates m (update_info (frame w)))
       |> set_pc tid (in_download l)).
Proof.
  intros Ht Hpc [Hmgr Hcount]. split.
  - intros _. apply Hmgr. intros Hnil. by rewrite Hnil in Ht.
  - intros tid'. unfold download_calls_by. simpl.
    rewrite filter_app, length_app, list_lookup_alter.
    fold (download_calls_by tid' w). rewrite Hcount.
    case_decide as Htid.
    + subst. rewrite Ht. simpl. rewrite Hpc. simpl.
      by rewrite filter_cons_True.
    + rewrite filter_cons_False; [simpl; lia|]. intros [[= ?] _]. by subst.
Qed.

Lemma main_match_threads : calls_match_threads main.
Proof. split; [done|]. by intros []. Qed.

Lemma match_threads_step url ev w w' :
  invariant url w → calls_match_threads w → step url ev w = Some w' →
  calls_match_threads w'.
Proof.
  intros H M. destruct ev as [[b|] o| |tid ev]; simpl.
  - destruct (enabled _); [|done]. intros [= <-]. unfold dispatch.
    rewrite (inv_bindings _ _ H). destruct b; simpl.
    + unfold on_check. destruct (sdk_check o) as [e|m [e|[i|]]];
        (apply (match_threads_ui w); [done|done| |done]); simpl.
      * exists [(UiThread, UpdateManager_new url)]. split; [done|]. by repeat constructor.
      * exists [(UiThread, UpdateManager_new url); (UiThread, check_for_updates m)].
        split; [by rewrite <- app_assoc|]. by repeat constructor.
      * exists [(UiThread, UpdateManager_new url); (UiThread, check_for_updates m)].
        split; [by rewrite <- app_assoc|]. by repeat constructor.
      * exists [(UiThread, UpdateManager_new url); (UiThread, check_for_updates m)].
        split; [by rewrite <- app_assoc|]. by repeat constructor.
    + unfold on_download. destruct (update_info (frame w)) eqn:Hu.
      * apply match_threads_start.
        -- apply (inv_manager _ _ H). by rewrite Hu.
        -- by apply (match_threads_same w).
      * by apply (match_threads_same w).
    + unfold on_apply. destruct (update_info (frame w)); [|by apply (match_threads_same w)].
      destruct (update_manager (frame w)) eqn:Hm; [|by apply (match_threads_same w)].
      destruct (sdk_apply o); (apply (match_threads_ui w); [done|done| |done]); simpl;
        eexists; (split; [done|]); by repeat constructor.
  - destruct (timer _); [|done]. intros [= <-]. unfold dispatch.
    rewrite (inv_bindings _ _ H). simpl. rewrite on_timer_eq.
    by apply (match_threads_same w).
  - destruct (pending w) as [|c q]; [done|]. intros [= <-].
    apply (match_threads_same w); by destruct c.
  - unfold download_thread. destruct (threads w !! tid) as [t|] eqn:Ht; [|done]. simpl.
    destruct (pc t) as [|l|l|] eqn:Hpc, ev; try done;
      [|destruct (update_manager (frame w)) eqn:Hm|..]; intros [= <-].
    + apply (match_threads_set_pc tid t); [done|by rewrite Hpc|done].
    + by apply (match_threads_call tid t).
    + destruct M as [Hmgr _]. destruct Hmgr; [|done]. intros Hnil. by rewrite Hnil in Ht.
    + by apply (match_threads_same w).
    + apply (match_threads_set_pc tid t); [done|by rewrite Hpc|].
      by apply (match_threads_same w).
    + apply (match_threads_set_pc tid t); [done|by rewrite Hpc|].
      by apply (match_threads_same w).
Qed.

(** X10. A download thread enters [download_updates] at most once: in
    every state of a run the number of [download_updates] calls a thread has
    made is 0 until it reaches the call and 1 from then on, and no call is
    made in the name of a thread that was never started. *)
Theorem one_download_call_per_thread (url : string) (w : World) (tid : nat) :
  reachable url w →
  (download_calls_by tid w ≤ 1)%nat
  ∧ download_calls_by tid w
    = match threads w !! tid with
      | Some t => if past_call (pc t) then 1%nat else 0%nat
      | None => 0%nat
      end.
Proof.
  intros [evs Hrun].
  assert (calls_match_threads w) as [_ Hcount].
  { assert (∀ evs w0, invariant url w0 → calls_match_threads w0 →
                      run url evs w0 = Some w → calls_match_threads w) as Hind.
    { clear. induction evs as [|ev evs IH]; intros w0 H M; simpl.
      - by intros [= <-].
      - destruct (step url ev w0) as [w1|] eqn:E; [|done]. simpl.
        apply IH; [by eapply step_invariant|by eapply match_threads_step]. }
    eapply Hind; [apply main_invariant|apply main_match_threads|done]. }
  rewrite Hcount. split; [|done].
  destruct (threads w !! tid) as [t|]; [destruct (past_call (pc t))|]; lia.
Qed.

Lemma one_download_call_per_thread_witness :
  reachable sample_url world_after_download
  ∧ (download_calls_by 0 world_after_download ≤ 1)%nat
  ∧ download_calls_by 0 world_after_download
    = match threads world_after_download !! 0%nat with
      | Some t => if past_call (pc t) then 1%nat else 0%nat
      | None => 0%nat
      end.
Proof.
  assert (reachable sample_url world_after_download) as Hw.
  { exists whole_download. vm_compute. reflexivity. }
  split; [exact Hw|].
  exact (one_download_call_per_thread sample_url world_after_download 0 Hw).
Defined.

(** ** What enables and disables the buttons *)

(** X11. The enabled state of a button changes in three ways only: a check
    that returns sets Download and Apply to enabled or disabled according to
    whether it found an update; a click on Download with update information
    stored disables both; and a queued [Enable] call from a download thread
    enables the button it names.  The Check button's state never changes. *)
Theorem enabled_changes_only_by
    (url : string) (ev : Event) (w w' : World) (b : ButtonId) :
  reachable url w →
  step url ev w = Some w' →
  enabled (button b (frame w')) ≠ enabled (button b (frame w)) →
  b ≠ CheckBtn
  ∧ ((∃ o m u, ev = Ui (Click CheckBtn) o
               ∧ sdk_check o = constructed m (check_returns u)
               ∧ enabled (button b (frame w'))
                 = match u with Some _ => true | None => false end)
     ∨ (∃ o, ev = Ui (Click DownloadBtn) o
             ∧ update_info (frame w) ≠ None
             ∧ enabled (button b (frame w')) = false)
     ∨ (∃ q, ev = Idle
             ∧ pending w = call_Enable b :: q
             ∧ enabled (button b (frame w')) = true)).
Proof.
  intros Hw. pose proof (reachable_invariant _ _ Hw) as H.
  pose proof (ui_reachable _ _ Hw) as U.
  destruct ev as [[b'|] o| |tid ev]; simpl.
  - destruct (enabled (button b' (frame w))); [|done]. intros [= <-]. unfold dispatch.
    rewrite (inv_bindings _ _ H). destruct b'; simpl.
    + destruct (sdk_check o) as [e|m [e|u]] eqn:Ho; [done|done|].
      intros Hne. split; [by destruct b, u|].
      left. exists o, m, u. split; [done|]. split; [done|]. by destruct b, u.
    + unfold on_download. destruct (update_info (frame w)) eqn:Hu; [|done].
      intros Hne. split; [by destruct b|].
      right. left. exists o. split; [done|]. split; [done|]. by destruct b.
    + unfold on_apply. destruct (update_info (frame w)); [|done].
      by destruct (update_manager (frame w)), (sdk_apply o).
  - destruct (timer _); [|done]. intros [= <-]. unfold dispatch.
    rewrite (inv_bindings _ _ H). simpl. rewrite on_timer_eq. by destruct b.
  - destruct (pending w) as [|c q] eqn:Hq; [done|]. intros [= <-].
    pose proof (ui_pending _ U) as Hp. rewrite Hq in Hp.
    apply Forall_cons in Hp as [Hc _].
    destruct c as [b' s|b'|lvl msg]; simpl.
    + by destruct b', b.
    + simpl in Hc. intros Hne.
      assert (b' = b) as -> by (by destruct b', b).
      split; [done|]. right. right. exists q. split; [done|]. split; [done|].
      by destruct b.
    + done.
  - unfold download_thread. destruct (threads w !! tid) as [t|]; [|done]. simpl.
    destruct (pc t), ev; try done;
      [|destruct (update_manager (frame w))|..]; by intros [= <-].
Qed.

Lemma enabled_changes_only_by_witness :
  reachable sample_url main
  ∧ step sample_url (Ui (Click CheckBtn) sdk_update_found) main = Some world_after_check
  ∧ enabled (button DownloadBtn (frame world_after_check))
    ≠ enabled (button DownloadBtn (frame main))
  ∧ DownloadBtn ≠ CheckBtn.
Proof.
  assert (reachable sample_url main) as Hw by (by exists []).
  assert (step sample_url (Ui (Click CheckBtn) sdk_update_found) main
          = Some world_after_check) as Hs by (vm_compute; reflexivity).
  assert (enabled (button DownloadBtn (frame world_after_check))
          ≠ enabled (button DownloadBtn (frame main))) as Hne
    by (vm_compute; discriminate).
  split; [exact Hw|]. split; [exact Hs|]. split; [exact Hne|].
  destruct (enabled_changes_only_by sample_url _ main world_after_check DownloadBtn
              Hw Hs Hne) as [Hb _].
  exact Hb.
Defined.
